(** * django-unicorn: the client-side [Component] of component.js

    A shallow embedding of [src/django_unicorn/static/js/component.js]:
    the action queue and its coalescing, the event listener registry, the
    dispatcher ([sendMessage]), the merge engine ([setValue],
    [setModelValues], [setDbModelValues]) and the polling controller.

    The component is a JavaScript object that is mutated in place by event
    handlers; it is embedded as a record [State] (the fields of [this]
    followed by the part of the browser the component acts on) and every
    method is a function [State -> State].  Closures that are stored and
    invoked later (completion callbacks, the polling error handler) are
    defunctionalised: one constructor per closure of the source, carrying
    the values the closure captures. *)

From stdpp Require Import base strings gmap list pretty.
From Stdlib Require Import ZArith Lia Ascii.

Set Warnings "-register-all".
Local Open Scope Z_scope.

(** ** Values

    Values exchanged with the server and read from form controls are JSON
    values.  A string is a sequence of code units, each below 256. *)

Inductive jsval : Type :=
| JNull
| JBool (b : bool)
| JNum (n : Z)
| JStr (s : string)
| JArr (items : list jsval)
| JObj (props : list (string * jsval)).

(** DOM nodes are compared by identity ([isSameNode]); a node is
    represented by its handle. *)
Definition NodeId := nat.
Bind Scope nat_scope with NodeId.

Definition isSameNode (a b : NodeId) : bool := Nat.eqb a b.

(** Handles returned by [setInterval]: positive integers, hence truthy. *)
Definition TimerId := positive.
Bind Scope positive_scope with TimerId.

(** ** Bound elements

    Modelled from the spec: the class [Element] of element.js is not part
    of the sources; the records below carry the fields of an [Element]
    that component.js reads, with the shape given by the data model of
    the specification (model binding, persistent-record binding, action
    bindings, polling directive).  A binding that the source tests with
    [isEmpty] is an [option]: [None] is the empty object. *)

Module Model.
Record t := mk {
  name : string;
  eventType : string;
  debounceTime : Z;
  isLazy : bool;
  isDefer : bool
}.
End Model.

Module Db.
(** [name] and [pk] are [undefined] ([None]) until the corresponding
    attribute is found. *)
Record t := mk {
  name : option string;
  pk : option string
}.
End Db.

Module Field.
Record t := mk {
  name : string;
  eventType : string;
  isDefer : bool
}.
End Field.

Module ActionBinding.
Record t := mk {
  name : string;
  eventType : string;
  key : option string;
  isPrevent : bool;
  isStop : bool
}.
End ActionBinding.

Module PollDirective.
Record t := mk {
  method : string;
  timing : Z;
  disable : bool
}.
End PollDirective.

Module Element.
Record t := mk {
  el : NodeId;
  isUnicorn : bool;
  model : option Model.t;
  db : Db.t;
  field : option Field.t;
  actions : list ActionBinding.t;
  poll : option PollDirective.t;
  id : option string;
  key : option string
}.
End Element.

Abbreviation Element := Element.t.

(** [isEmpty(element.db)]: the object has no property. *)
Definition db_isEmpty (d : Db.t) : bool :=
  match Db.name d, Db.pk d with
  | None, None => true
  | _, _ => false
  end.

(** JavaScript truthiness of a string-or-undefined value. *)
Definition truthy (o : option string) : bool :=
  match o with
  | Some s => negb (String.eqb s "")
  | None => false
  end.

(** [a === b] on two string-or-undefined values. *)
Definition strict_eq (a b : option string) : bool :=
  match a, b with
  | Some x, Some y => String.eqb x y
  | None, None => true
  | _, _ => false
  end.

(** [element.model.debounceTime]: [undefined] when the element has no
    model binding. *)
Definition model_debounceTime (e : Element) : option Z :=
  Model.debounceTime <$> Element.model e.

(** ** Actions

    A queue entry is an object [{type, payload}]; the shape of the payload
    is fixed by the type.  The three constructors are the three object
    literals of the source ([db] and [pk] of a [dbInput] are copied from
    the element and may be [undefined]).  The coalescing scan of the model listener
    assigns [payload.value] on any entry whose [payload.name] matches, so
    a [callMethod] payload can acquire a [value] property: [cm_value]. *)

Inductive Action : Type :=
| SyncInput (name : string) (value : jsval)
| DbInput (db pk : option string) (fields : gmap string jsval)
| CallMethod (name : string) (params : list jsval) (cm_value : option jsval).

(** [a.payload.name] *)
Definition payload_name (a : Action) : option string :=
  match a with
  | SyncInput n _ => Some n
  | DbInput _ _ _ => None
  | CallMethod n _ _ => Some n
  end.

(** [a.payload.value] *)
Definition payload_value (a : Action) : option jsval :=
  match a with
  | SyncInput _ v => Some v
  | DbInput _ _ _ => None
  | CallMethod _ _ v => v
  end.

(** [a.payload.db] and [a.payload.pk] *)
Definition payload_db (a : Action) : option string :=
  match a with DbInput d _ _ => d | _ => None end.

Definition payload_pk (a : Action) : option string :=
  match a with DbInput _ p _ => p | _ => None end.

Definition is_syncInput (a : Action) : bool :=
  match a with SyncInput _ _ => true | _ => false end.

Definition is_dbInput (a : Action) : bool :=
  match a with DbInput _ _ _ => true | _ => false end.

(** ** Closures *)

(** [handleError] of [startPolling]; it captures the constant [timer]. *)
Inductive ErrCallback : Type :=
| HandleError (timer : option TimerId).

(** The completion callbacks handed to [sendMessage]: the arrow functions
    of [addModelEventListener], [addDbEventListener] (each created by the
    listener of one element) and [callMethod]. *)
Inductive Callback : Type :=
| ModelCallback (el : NodeId)
| DbCallback (el : NodeId)
| CallMethodCallback (errCallback : option ErrCallback).

(** Listeners registered with [addEventListener].  Every registration
    passes a fresh arrow function, so no two registrations are ever the
    same listener and the browser keeps all of them. *)
Inductive Handler : Type :=
| ModelListener (element : Element)
| DbListener (element : Element)
| ActionListener (eventType : string)
| VisibilityListener.

Inductive Target : Type :=
| OnNode (el : NodeId)
| OnDocument.

Record Listener := mkListener {
  l_target : Target;
  l_type : string;
  l_handler : Handler
}.

(** ** The browser as seen by the component *)

Inductive Effect : Type :=
| EFocus (el : NodeId)                 (* element.focus() *)
| ESetValue (el : NodeId) (v : jsval)  (* element.setValue(v) *)
| EConsoleError (err : string)
| EPreventDefault
| EStopPropagation.

(** An active [setInterval(this.callMethod.bind(this), timing, method,
    handleError)]. *)
Record Interval := mkInterval {
  i_id : TimerId;
  i_timing : Z;
  i_method : string;
  i_errCallback : ErrCallback
}.

(** Modelled from the spec: [debounce] of delayers.js is not part of the
    sources.  The dispatcher is "debounced per (component, call site)":
    a call site is the listener of one element, or [callMethod]. *)
Inductive CallSite : Type :=
| SiteModel (el : NodeId)
| SiteDb (el : NodeId)
| SiteMethod.

Definition site_of (cb : Callback) : CallSite :=
  match cb with
  | ModelCallback el => SiteModel el
  | DbCallback el => SiteDb el
  | CallMethodCallback _ => SiteMethod
  end.

Definition site_eqb (a b : CallSite) : bool :=
  match a, b with
  | SiteModel x, SiteModel y => Nat.eqb x y
  | SiteDb x, SiteDb y => Nat.eqb x y
  | SiteMethod, SiteMethod => true
  | _, _ => false
  end.

(** A pending debounce timer: armed at [t_armed] with window [t_wait]
    (as passed to [debounce]; [None] is [undefined]), it will invoke
    [send(component, t_callback)]. *)
Record Timeout := mkTimeout {
  t_site : CallSite;
  t_armed : Z;
  t_wait : option Z;
  t_callback : Callback
}.

(** Modelled from the spec: [send] of messageSender.js is not part of the
    sources; it is the "opaque network call carrying ... the serialized
    action queue".  A request records the queue it was sent with and the
    completion callback it will invoke. *)
Record Request := mkRequest {
  r_queue : list Action;
  r_callback : Callback
}.

(** ** The state: the fields of [this], then the browser *)

Record State := mkState {
  (* this.* *)
  data : jsval;
  root : NodeId;
  modelEls : list Element;
  dbEls : list Element;
  poll : option PollDirective.t;
  poll_timer : option TimerId;               (* this.poll.timer *)
  actionQueue : list Action;
  lastTriggeringElements : list Element;
  actionEvents : gmap string (list (ActionBinding.t * Element));
  attachedEventTypes : list string;
  (* the browser *)
  listeners : list Listener;
  intervals : list Interval;
  next_timer : TimerId;
  clock : Z;
  timeouts : list Timeout;
  network : list Request;
  trace : list Effect
}.

(** Field updates ([this.f = x]). *)

Definition set_modelEls (x : list Element) (s : State) : State :=
  mkState (data s) (root s) x (dbEls s) (poll s) (poll_timer s)
    (actionQueue s) (lastTriggeringElements s) (actionEvents s)
    (attachedEventTypes s) (listeners s) (intervals s) (next_timer s)
    (clock s) (timeouts s) (network s) (trace s).

Definition set_dbEls (x : list Element) (s : State) : State :=
  mkState (data s) (root s) (modelEls s) x (poll s) (poll_timer s)
    (actionQueue s) (lastTriggeringElements s) (actionEvents s)
    (attachedEventTypes s) (listeners s) (intervals s) (next_timer s)
    (clock s) (timeouts s) (network s) (trace s).

Definition set_poll (x : option PollDirective.t) (s : State) : State :=
  mkState (data s) (root s) (modelEls s) (dbEls s) x (poll_timer s)
    (actionQueue s) (lastTriggeringElements s) (actionEvents s)
    (attachedEventTypes s) (listeners s) (intervals s) (next_timer s)
    (clock s) (timeouts s) (network s) (trace s).

Definition set_poll_timer (x : option TimerId) (s : State) : State :=
  mkState (data s) (root s) (modelEls s) (dbEls s) (poll s) x
    (actionQueue s) (lastTriggeringElements s) (actionEvents s)
    (attachedEventTypes s) (listeners s) (intervals s) (next_timer s)
    (clock s) (timeouts s) (network s) (trace s).

Definition set_actionQueue (x : list Action) (s : State) : State :=
  mkState (data s) (root s) (modelEls s) (dbEls s) (poll s) (poll_timer s) x
    (lastTriggeringElements s) (actionEvents s) (attachedEventTypes s)
    (listeners s) (intervals s) (next_timer s) (clock s) (timeouts s)
    (network s) (trace s).

Definition set_lastTriggeringElements (x : list Element) (s : State) : State :=
  mkState (data s) (root s) (modelEls s) (dbEls s) (poll s) (poll_timer s)
    (actionQueue s) x (actionEvents s) (attachedEventTypes s) (listeners s)
    (intervals s) (next_timer s) (clock s) (timeouts s) (network s) (trace s).

Definition set_actionEvents (x : gmap string (list (ActionBinding.t * Element))) (s : State) : State :=
  mkState (data s) (root s) (modelEls s) (dbEls s) (poll s) (poll_timer s)
    (actionQueue s) (lastTriggeringElements s) x (attachedEventTypes s)
    (listeners s) (intervals s) (next_timer s) (clock s) (timeouts s)
    (network s) (trace s).

Definition set_attachedEventTypes (x : list string) (s : State) : State :=
  mkState (data s) (root s) (modelEls s) (dbEls s) (poll s) (poll_timer s)
    (actionQueue s) (lastTriggeringElements s) (actionEvents s) x
    (listeners s) (intervals s) (next_timer s) (clock s) (timeouts s)
    (network s) (trace s).

Definition set_listeners (x : list Listener) (s : State) : State :=
  mkState (data s) (root s) (modelEls s) (dbEls s) (poll s) (poll_timer s)
    (actionQueue s) (lastTriggeringElements s) (actionEvents s)
    (attachedEventTypes s) x (intervals s) (next_timer s) (clock s)
    (timeouts s) (network s) (trace s).

Definition set_intervals (x : list Interval) (s : State) : State :=
  mkState (data s) (root s) (modelEls s) (dbEls s) (poll s) (poll_timer s)
    (actionQueue s) (lastTriggeringElements s) (actionEvents s)
    (attachedEventTypes s) (listeners s) x (next_timer s) (clock s)
    (timeouts s) (network s) (trace s).

Definition set_next_timer (x : TimerId) (s : State) : State :=
  mkState (data s) (root s) (modelEls s) (dbEls s) (poll s) (poll_timer s)
    (actionQueue s) (lastTriggeringElements s) (actionEvents s)
    (attachedEventTypes s) (listeners s) (intervals s) x (clock s)
    (timeouts s) (network s) (trace s).

Definition set_clock (x : Z) (s : State) : State :=
  mkState (data s) (root s) (modelEls s) (dbEls s) (poll s) (poll_timer s)
    (actionQueue s) (lastTriggeringElements s) (actionEvents s)
    (attachedEventTypes s) (listeners s) (intervals s) (next_timer s) x
    (timeouts s) (network s) (trace s).

Definition set_timeouts (x : list Timeout) (s : State) : State :=
  mkState (data s) (root s) (modelEls s) (dbEls s) (poll s) (poll_timer s)
    (actionQueue s) (lastTriggeringElements s) (actionEvents s)
    (attachedEventTypes s) (listeners s) (intervals s) (next_timer s)
    (clock s) x (network s) (trace s).

Definition set_network (x : list Request) (s : State) : State :=
  mkState (data s) (root s) (modelEls s) (dbEls s) (poll s) (poll_timer s)
    (actionQueue s) (lastTriggeringElements s) (actionEvents s)
    (attachedEventTypes s) (listeners s) (intervals s) (next_timer s)
    (clock s) (timeouts s) x (trace s).

Definition set_trace (x : list Effect) (s : State) : State :=
  mkState (data s) (root s) (modelEls s) (dbEls s) (poll s) (poll_timer s)
    (actionQueue s) (lastTriggeringElements s) (actionEvents s)
    (attachedEventTypes s) (listeners s) (intervals s) (next_timer s)
    (clock s) (timeouts s) (network s) x.

(** ** Property access on JSON values *)

(** [k] is the canonical decimal spelling of an index below [n]. *)
Definition index_of_key (k : string) (n : nat) : option nat :=
  List.find (fun i => String.eqb (pretty i) k) (seq 0 n).

(** [Object.prototype.hasOwnProperty.call(v, k)] for a non-null [v]:
    objects own their keys, arrays and (boxed) strings own their indices
    and [length], numbers and booleans own nothing. *)
Definition hasOwnProperty (v : jsval) (k : string) : bool :=
  match v with
  | JObj props => existsb (fun kv => String.eqb (fst kv) k) props
  | JArr items =>
      String.eqb k "length" || bool_decide (is_Some (index_of_key k (length items)))
  | JStr str =>
      String.eqb k "length" || bool_decide (is_Some (index_of_key k (String.length str)))
  | JNum _ | JBool _ | JNull => false
  end.

(** [v[k]], used only for an own property. *)
Definition get_prop (v : jsval) (k : string) : jsval :=
  match v with
  | JObj props =>
      match List.find (fun kv => String.eqb (fst kv) k) props with
      | Some kv => snd kv
      | None => JNull
      end
  | JArr items =>
      if String.eqb k "length" then JNum (Z.of_nat (length items))
      else match index_of_key k (length items) with
           | Some i => nth i items JNull
           | None => JNull
           end
  | JStr str =>
      if String.eqb k "length" then JNum (Z.of_nat (String.length str))
      else match index_of_key k (String.length str) with
           | Some i => JStr (String.substring i 1 str)
           | None => JNull
           end
  | JNum _ | JBool _ | JNull => JNull
  end.

(** [s.split(".")] *)
Fixpoint split_dot (s : string) : list string :=
  match s with
  | EmptyString => [EmptyString]
  | String c rest =>
      if Ascii.eqb c "."%char then EmptyString :: split_dot rest
      else match split_dot rest with
           | piece :: pieces => String c piece :: pieces
           | [] => [String c EmptyString]
           end
  end.

(** ** Effects on the browser *)

Definition emit (e : Effect) (s : State) : State :=
  set_trace (trace s ++ [e]) s.

(** [element.focus()] and [element.setValue(v)] of the DOM-write
    collaborator. *)
Definition element_focus (element : Element) : State -> State :=
  emit (EFocus (Element.el element)).

Definition element_setValue (element : Element) (v : jsval) : State -> State :=
  emit (ESetValue (Element.el element) v).

Definition console_error (err : option string) : State -> State :=
  emit (EConsoleError (default "" err)).

Definition addEventListener (target : Target) (eventType : string)
    (h : Handler) (s : State) : State :=
  set_listeners (listeners s ++ [mkListener target eventType h]) s.

Definition setInterval (timing : Z) (method : string) (h : ErrCallback)
    (s : State) : TimerId * State :=
  let id := next_timer s in
  (id, set_next_timer (Pos.succ id)
         (set_intervals (intervals s ++ [mkInterval id timing method h]) s)).

Definition clearInterval (id : TimerId) (s : State) : State :=
  set_intervals
    (List.filter (fun i => negb (Pos.eqb (i_id i) id)) (intervals s)) s.

(** ** Dispatcher *)

(** Modelled from the spec: [debounce(send, wait, false)(this, callback)].
    "Repeated calls within the debounce window collapse to one network
    call": arming the timer of a call site replaces the pending timer of
    that site. *)
Definition debounce_send (wait : option Z) (callback : Callback)
    (s : State) : State :=
  let site := site_of callback in
  set_timeouts
    (List.filter (fun t => negb (site_eqb (t_site t) site)) (timeouts s)
       ++ [mkTimeout site (clock s) wait callback]) s.

(** [debounceTime === -1] *)
Definition is_minus_one (debounceTime : option Z) : bool :=
  match debounceTime with
  | Some d => d =? -1
  | None => false
  end.

Definition sendMessage (debounceTime : option Z) (callback : Callback)
    (s : State) : State :=
  if is_minus_one debounceTime then
    debounce_send (Some 250) callback s
  else
    debounce_send debounceTime callback s.

Definition push_action (a : Action) (s : State) : State :=
  set_actionQueue (actionQueue s ++ [a]) s.

Definition push_triggering (e : Element) (s : State) : State :=
  set_lastTriggeringElements (lastTriggeringElements s ++ [e]) s.

Definition callMethod (methodName : string) (errCallback : option ErrCallback)
    (s : State) : State :=
  let action := CallMethod methodName [] None in
  let s := push_action action s in
  sendMessage (Some (-1)) (CallMethodCallback errCallback) s.

(** ** Merge engine *)

(** The loop of [setValue]: [pieces] are the path segments from index [i]
    on, [_data] the level reached.  The last segment ([i === length - 1])
    is the one with no segment after it. *)
Fixpoint setValue_loop (element : Element) (pieces : list string)
    (_data : jsval) (s : State) : State :=
  match pieces with
  | [] => s
  | modelNamePiece :: rest =>
      match _data with
      | JNull => s                                   (* _data == null: return *)
      | _ =>
          if hasOwnProperty _data modelNamePiece then
            match rest with
            | [] => element_setValue element (get_prop _data modelNamePiece) s
            | _ :: _ =>
                setValue_loop element rest (get_prop _data modelNamePiece) s
            end
          else
            setValue_loop element rest _data s
      end
  end.

Definition setValue (element : Element) (s : State) : State :=
  match Element.model element with
  | None => s
  | Some model =>
      let modelNamePieces := split_dot (Model.name model) in
      setValue_loop element modelNamePieces (data s) s
  end.

(** The focus restoration of [setModelValues]: the inner [forEach] over
    [this.modelEls] for one attribute, threading [elementFocused]. *)
Definition focus_scan (attr : Element -> option string)
    (lastTriggeringElement : Element) (els : list Element)
    (acc : bool * State) : bool * State :=
  foldl (fun '(elementFocused, s) element =>
           if negb elementFocused then
             if truthy (attr lastTriggeringElement)
                && strict_eq (attr lastTriggeringElement) (attr element)
             then (true, element_focus element s)
             else (elementFocused, s)
           else (elementFocused, s))
        acc els.

Definition restore_focus (triggeringElements : list Element) (s : State)
    : State :=
  if (0 <? length triggeringElements)%nat then
    match last triggeringElements with
    | Some lastTriggeringElement =>
        match Element.model lastTriggeringElement with
        | Some model =>
            if negb (Model.isLazy model) then
              snd (foldl (fun acc attr =>
                            focus_scan attr lastTriggeringElement (modelEls s) acc)
                         (false, s) [Element.id; Element.key])
            else s
        | None => s
        end
    | None => s
    end
  else s.

(** [shouldSetValue] after the inner [forEach] over the triggering
    elements. *)
Definition shouldSetValue (element : Element)
    (triggeringElements : list Element) : bool :=
  foldl (fun should triggeringElement =>
           if negb (isSameNode (Element.el element)
                               (Element.el triggeringElement))
           then true else should)
        false triggeringElements.

Definition setModelValues (triggeringElements : option (list Element))
    (s : State) : State :=
  let triggeringElements := default [] triggeringElements in
  let s := restore_focus triggeringElements s in
  foldl (fun s element =>
           if shouldSetValue element triggeringElements
              || (length triggeringElements =? 0)%nat
           then setValue element s
           else s)
        s (modelEls s).

(** [element.field.name]; a missing property read as a key is
    ["undefined"]. *)
Definition field_name (e : Element) : string :=
  match Element.field e with
  | Some f => Field.name f
  | None => "undefined"
  end.

Definition field_isDefer (e : Element) : bool :=
  match Element.field e with
  | Some f => Field.isDefer f
  | None => false
  end.

Section DbMerge.

(** [element.dbKey()] of element.js, not part of the sources: the key of
    the element's record in the record updates of a response. *)
Variable dbKey : Element -> string.

Definition setDbModelValues (triggeringElements : option (list Element))
    (dbUpdates : option (list (string * list (string * jsval))))
    (s : State) : State :=
  let triggeringElements := default [] triggeringElements in
  let dbUpdates := default [] dbUpdates in
  let lastTriggeringElement := last triggeringElements in
  foldl (fun s element =>
           if match lastTriggeringElement with
              | None => true
              | Some l => negb (isSameNode (Element.el l) (Element.el element))
              end
           then
             foldl (fun s '(key, updates) =>
                      if String.eqb (dbKey element) key then
                        foldl (fun s '(fieldName, v) =>
                                 if strict_eq (Field.name <$> Element.field element)
                                              (Some fieldName)
                                 then element_setValue element v s
                                 else s)
                              s updates
                      else s)
                   s dbUpdates
           else s)
        s (dbEls s).

(** ** Completion callbacks

    [send] invokes [callback(triggeringElements, dbUpdates, err)]. *)

Definition handleError (h : ErrCallback) (err : option string) (s : State)
    : State :=
  match h with
  | HandleError timer =>
      let s := if truthy err then console_error err s else s in
      match timer with
      | Some t => clearInterval t s
      | None => s
      end
  end.

Definition run_callback (callback : Callback)
    (triggeringElements : option (list Element))
    (dbUpdates : option (list (string * list (string * jsval))))
    (err : option string) (s : State) : State :=
  match callback with
  | ModelCallback _ =>
      if truthy err then console_error err s
      else
        let s := setModelValues triggeringElements s in
        setDbModelValues triggeringElements None s
  | DbCallback _ =>
      if truthy err then console_error err s
      else setDbModelValues triggeringElements dbUpdates s
  | CallMethodCallback errCallback =>
      match errCallback with
      | Some h =>
          if truthy err then handleError h err s
          else
            let s := setModelValues triggeringElements s in
            setDbModelValues triggeringElements None s
      | None =>
          if truthy err then console_error err s
          else
            let s := setModelValues triggeringElements s in
            setDbModelValues triggeringElements None s
      end
  end.

End DbMerge.

(** ** Element listeners *)

(** [a.payload.value = v] *)
Definition set_payload_value (v : jsval) (a : Action) : Action :=
  match a with
  | SyncInput n _ => SyncInput n v
  | CallMethod n ps _ => CallMethod n ps (Some v)
  | DbInput _ _ _ => a
  end.

(** [a.payload.fields[k] = v] *)
Definition set_payload_field (k : string) (v : jsval) (a : Action) : Action :=
  match a with
  | DbInput d p fields => DbInput d p (<[k := v]> fields)
  | _ => a
  end.

Definition name_matches (name : string) (a : Action) : bool :=
  strict_eq (payload_name a) (Some name).

(** The body of the scan of the model listener:
    [if (a.payload.name === name) a.payload.value = v]. *)
Definition overwrite_value (name : string) (v : jsval) (a : Action) : Action :=
  if name_matches name a then set_payload_value v a else a.

Definition record_matches (db pk : option string) (a : Action) : bool :=
  strict_eq (payload_db a) db && strict_eq (payload_pk a) pk.

(** The listener installed by [addModelEventListener]; [value] is what
    [element.getValue()] returns while the event is handled.  The listener
    is installed on elements with a model binding only. *)
Definition modelListener (element : Element) (value : jsval) (s : State)
    : State :=
  match Element.model element with
  | None => s
  | Some model =>
      let action := SyncInput (Model.name model) value in
      if Model.isDefer model then
        (* forEach: every entry is visited, a matching one is updated in
           place and raises the flag *)
        let foundAction := existsb (name_matches (Model.name model)) (actionQueue s) in
        let s :=
          set_actionQueue
            (map (overwrite_value (Model.name model) value) (actionQueue s)) s in
        if negb foundAction then
          push_triggering element (push_action action s)
        else s
      else
        let s := push_action action s in
        let s := push_triggering element s in
        sendMessage (model_debounceTime element)
                    (ModelCallback (Element.el element)) s
  end.

(** The listener installed by [addDbEventListener]. *)
Definition dbListener (element : Element) (value : jsval) (s : State)
    : State :=
  let db := Element.db element in
  if negb (truthy (Db.name db)) || negb (truthy (Db.pk db)) then s
  else
    let s := push_triggering element s in
    let action :=
      DbInput (Db.name db) (Db.pk db) {[ field_name element := value ]} in
    if field_isDefer element then
      let foundAction :=
        existsb (record_matches (Db.name db) (Db.pk db)) (actionQueue s) in
      let s :=
        set_actionQueue
          (map (fun a => if record_matches (Db.name db) (Db.pk db) a
                         then set_payload_field (field_name element) value a
                         else a)
               (actionQueue s)) s in
      if negb foundAction then push_action action s else s
    else
      let s := push_action action s in
      sendMessage (model_debounceTime element)
                  (DbCallback (Element.el element)) s.

(** ** The delegated action listener

    The listener installed on the document by [addActionEventListener]
    for [eventType].  [target] is [new Element(event.target)], [key] is
    [toKebabCase(event.key)], [descendants] are the nodes [walk] visits
    below the element of the action, and [getValue] reads the form
    controls. *)

(** The body of the [walk] callback: flush the lazy bindings of
    [childEl]. *)
Definition flush_lazy (getValue : Element -> jsval) (childEl : NodeId)
    (s : State) : State :=
  let modelElsInTargetScope :=
    List.filter (fun e => isSameNode (Element.el e) childEl) (modelEls s) in
  let s :=
    foldl (fun s modelElement =>
             match Element.model modelElement with
             | Some model =>
                 if Model.isLazy model then
                   push_action
                     (SyncInput (Model.name model) (getValue modelElement)) s
                 else s
             | None => s
             end)
          s modelElsInTargetScope in
  let dbElsInTargetScope :=
    List.filter (fun e => isSameNode (Element.el e) childEl) (dbEls s) in
  foldl (fun s dbElement =>
           match Element.model dbElement with
           | Some model =>
               if Model.isLazy model then
                 push_action
                   (DbInput (Db.name (Element.db dbElement))
                            (Db.pk (Element.db dbElement))
                            {[ field_name dbElement := getValue dbElement ]}) s
               else s
           | None => s
           end)
        s dbElsInTargetScope.

Definition actionListener (eventType : string) (target : Element)
    (key : string) (descendants : list NodeId)
    (getValue : Element -> jsval) (s : State) : State :=
  if Element.isUnicorn target
     && (0 <? length (Element.actions target))%nat
  then
    match actionEvents s !! eventType with
    | None => s            (* forEach of undefined: the handler throws here *)
    | Some actionEventList =>
        foldl (fun s '(action, element) =>
                 if isSameNode (Element.el target) (Element.el element) then
                   let s := foldl (fun s childEl => flush_lazy getValue childEl s)
                                  s descendants in
                   let s := if ActionBinding.isPrevent action
                            then emit EPreventDefault s else s in
                   let s := if ActionBinding.isStop action
                            then emit EStopPropagation s else s in
                   if truthy (ActionBinding.key action) then
                     if strict_eq (ActionBinding.key action) (Some key) then
                       callMethod (ActionBinding.name action) None s
                     else s
                   else
                     callMethod (ActionBinding.name action) None s
                 else s)
              s actionEventList
    end
  else s.

(** ** Event listener registry *)

Definition addActionEventListener (eventType : string) : State -> State :=
  addEventListener OnDocument eventType (ActionListener eventType).

Definition addModelEventListener (element : Element) (eventType : string)
    : State -> State :=
  addEventListener (OnNode (Element.el element)) eventType
                   (ModelListener element).

Definition addDbEventListener (element : Element) (eventType : string)
    : State -> State :=
  addEventListener (OnNode (Element.el element)) eventType
                   (DbListener element).

(** [els.filter((e) => e.el.isSameNode(element.el)).length === 0] *)
Definition not_bound (element : Element) (els : list Element) : bool :=
  (length (List.filter
             (fun e => isSameNode (Element.el e) (Element.el element)) els)
   =? 0)%nat.

(** The body of [element.actions.forEach]. *)
Definition register_action (element : Element) (s : State)
    (action : ActionBinding.t) : State :=
  let eventType := ActionBinding.eventType action in
  match actionEvents s !! eventType with
  | Some registered =>
      set_actionEvents
        (<[eventType := registered ++ [(action, element)]]> (actionEvents s)) s
  | None =>
      let s :=
        set_actionEvents
          (<[eventType := [(action, element)]]> (actionEvents s)) s in
      if (length (List.filter (fun et => String.eqb et eventType)
                              (attachedEventTypes s)) =? 0)%nat
      then
        let s := set_attachedEventTypes (attachedEventTypes s ++ [eventType]) s in
        addActionEventListener eventType s
      else s
  end.

(** The body of the walker callback; [element] is [new Element(el)]. *)
Definition register_element (s : State) (element : Element) : State :=
  if isSameNode (Element.el element) (root s) then s
  else if Element.isUnicorn element then
    let s :=
      match Element.model element with
      | Some model =>
          if not_bound element (modelEls s) then
            let s := set_modelEls (modelEls s ++ [element]) s in
            addModelEventListener element (Model.eventType model) s
          else s
      | None => s
      end in
    let s :=
      match Element.field element with
      | Some field =>
          if negb (db_isEmpty (Element.db element)) then
            if not_bound element (dbEls s) then
              let s := set_dbEls (dbEls s ++ [element]) s in
              addDbEventListener element (Field.eventType field) s
            else s
          else s
      | None => s
      end in
    foldl (register_action element) s (Element.actions element)
  else s.

(** [walked] is the sequence of nodes that [this.walker(this.root, ...)]
    visits, each with the directives [new Element(el)] extracts. *)
Definition refreshEventListeners (walked : list Element) (s : State) : State :=
  let s := set_actionEvents ∅ s in
  let s := set_modelEls [] s in
  let s := set_dbEls [] s in
  foldl register_element s walked.

(** ** Polling controller *)

(** [this.poll] is the directive of the root once [initPolling] has stored
    it; [startPolling] is not reached before. *)
Definition startPolling (s : State) : State :=
  let s := set_poll_timer None s in
  let timer := poll_timer s in              (* const { timer } = this.poll *)
  let handleError := HandleError timer in
  match poll s with
  | Some directive =>
      let s := callMethod (PollDirective.method directive) (Some handleError) s in
      let '(id, s) := setInterval (PollDirective.timing directive)
                                  (PollDirective.method directive)
                                  handleError s in
      set_poll_timer (Some id) s
  | None => s
  end.

(** [rootElement] is [new Element(this.root)]. *)
Definition initPolling (rootElement : Element) (s : State) : State :=
  if Element.isUnicorn rootElement
     && bool_decide (is_Some (Element.poll rootElement))
  then
    let s := set_poll (Element.poll rootElement) s in
    let s := set_poll_timer None s in
    let s := addEventListener OnDocument "visibilitychange"
                              VisibilityListener s in
    startPolling s
  else s.

(** The [visibilitychange] listener; [hidden] is [this.document.hidden]. *)
Definition visibilityListener (hidden : bool) (s : State) : State :=
  if hidden then
    match poll_timer s with
    | Some t => clearInterval t s
    | None => s
    end
  else startPolling s.

(** ** Timers run by the event loop *)

(** The interval [id] elapses: if it is still active its callback,
    [this.callMethod.bind(this)], runs with the registered arguments. *)
Definition interval_fire (id : TimerId) (s : State) : State :=
  match List.find (fun i => Pos.eqb (i_id i) id) (intervals s) with
  | Some i => callMethod (i_method i) (Some (i_errCallback i)) s
  | None => s
  end.

Definition interval_active (id : TimerId) (s : State) : bool :=
  existsb (fun i => Pos.eqb (i_id i) id) (intervals s).

(** Time passes. *)
Definition advance (ms : Z) (s : State) : State :=
  set_clock (clock s + Z.max 0 ms) s.

(** A timer armed with an undefined or negative delay is due at once. *)
Definition delay_ms (wait : option Z) : Z := Z.max 0 (default 0 wait).

Definition due (t : Timeout) : Z := t_armed t + delay_ms (t_wait t).

(** Modelled from the spec: [send(component, callback)] issues one
    network call carrying the current action queue. *)
Definition send (callback : Callback) (s : State) : State :=
  set_network (network s ++ [mkRequest (actionQueue s) callback]) s.

(** The event loop runs the debounce timer of [site] if it is due. *)
Definition timeout_fire (site : CallSite) (s : State) : State :=
  match List.find (fun t => site_eqb (t_site t) site) (timeouts s) with
  | Some t =>
      if due t <=? clock s then
        send (t_callback t)
             (set_timeouts
                (List.filter (fun t => negb (site_eqb (t_site t) site))
                             (timeouts s)) s)
      else s
  | None => s
  end.

(** ** Construction *)

(** The fields set by the constructor before [init] runs, in a browser
    with no listener, no timer and no request so far. *)
Definition new_component (args_data : jsval) (rootNode : NodeId) : State :=
  mkState args_data rootNode [] [] None None [] [] ∅ []
          [] [] 1%positive 0 [] [] [].

(** [new Component(args)]: [refreshEventListeners] then [initPolling]. *)
Definition construct (args_data : jsval) (rootElement : Element)
    (walked : list Element) : State :=
  initPolling rootElement
    (refreshEventListeners walked
       (new_component args_data (Element.el rootElement))).

(** ** Event sequences *)

(** Model-input events in firing order: the element and the value its
    control shows when the event fires. *)
Definition model_events (evs : list (Element * jsval)) (s : State) : State :=
  foldl (fun s ev => modelListener (fst ev) (snd ev) s) s evs.

(** Record-input events in firing order. *)
Definition db_events (evs : list (Element * jsval)) (s : State) : State :=
  foldl (fun s ev => dbListener (fst ev) (snd ev) s) s evs.

(** Number of [syncInput] entries for [name] in a queue. *)
Definition count_sync (name : string) (q : list Action) : nat :=
  length (List.filter (fun a => is_syncInput a && name_matches name a) q).

(** Number of [dbInput] entries for the record [(db, pk)] in a queue. *)
Definition count_db (db pk : string) (q : list Action) : nat :=
  length (List.filter
            (fun a => is_dbInput a && record_matches (Some db) (Some pk) a) q).

(** [e] has a deferred model binding on the field [name]. *)
Definition is_deferred_on (name : string) (e : Element) : bool :=
  match Element.model e with
  | Some m => String.eqb (Model.name m) name && Model.isDefer m
  | None => false
  end.

(** [e] has a deferred record binding on the record [(db, pk)]. *)
Definition is_deferred_record (db pk : string) (e : Element) : bool :=
  strict_eq (Db.name (Element.db e)) (Some db)
  && strict_eq (Db.pk (Element.db e)) (Some pk)
  && truthy (Some db) && truthy (Some pk)
  && field_isDefer e.

(** The coalescing rule in the words of the specification: scan the queue
    for an entry with the same name; if found overwrite its value in
    place and do not append, otherwise append. *)
Definition coalesce_syncInput (name : string) (v : jsval) (q : list Action)
    : list Action :=
  if existsb (name_matches name) q then
    map (overwrite_value name v) q
  else q ++ [SyncInput name v].

(** The rule for [dbInput]: merge the field into the entry of the same
    record if there is one, otherwise append. *)
Definition coalesce_dbInput (db pk field : string) (v : jsval)
    (q : list Action) : list Action :=
  if existsb (record_matches (Some db) (Some pk)) q then
    map (fun a => if record_matches (Some db) (Some pk) a
                  then set_payload_field field v a else a) q
  else q ++ [DbInput (Some db) (Some pk) {[ field := v ]}].

(** The fields of a record after a sequence of inputs: last write wins. *)
Definition merge_fields (evs : list (Element * jsval)) : gmap string jsval :=
  foldl (fun m ev => <[ field_name (fst ev) := snd ev ]> m) ∅ evs.

(** The value most recently entered for [field] in a sequence of inputs. *)
Definition latest_value (field : string) (evs : list (Element * jsval))
    : option jsval :=
  foldl (fun acc ev => if String.eqb (field_name (fst ev)) field
                       then Some (snd ev) else acc)
        None evs.

(** ** Observations on the trace *)

(** The nodes focused, in order. *)
Definition focus_events (t : list Effect) : list NodeId :=
  flat_map (fun e => match e with EFocus n => [n] | _ => [] end) t.

(** The writes to form controls, in order. *)
Definition write_events (t : list Effect) : list (NodeId * jsval) :=
  flat_map (fun e => match e with ESetValue n v => [(n, v)] | _ => [] end) t.

(** ** Focus restoration in the words of the specification

    Take the last triggering element; if it exists, is bound and not
    lazy, and a bound model element carries the same (non-empty) [id],
    or else the same [key], that element is the one to focus. *)

Definition attr_match (attr : Element -> option string)
    (trigger e : Element) : bool :=
  truthy (attr trigger) && strict_eq (attr trigger) (attr e).

Definition first_match (attr : Element -> option string)
    (trigger : Element) (els : list Element) : option Element :=
  List.find (attr_match attr trigger) els.

Definition spec_focus_target (triggeringElements els : list Element)
    : option Element :=
  match last triggeringElements with
  | Some trigger =>
      match Element.model trigger with
      | Some model =>
          if Model.isLazy model then None
          else match first_match Element.id trigger els with
               | Some e => Some e
               | None => first_match Element.key trigger els
               end
      | None => None
      end
  | None => None
  end.

(** ** Sample markup *)

(** An element with a model binding on [name] and nothing else. *)
Definition model_input (node : NodeId) (name : string) (isLazy isDefer : bool)
    : Element :=
  Element.mk node true (Some (Model.mk name "input" (-1) isLazy isDefer))
             (Db.mk None None) None [] None None None.

(** An element bound to one field of the record [(db, pk)], without a
    model binding. *)
Definition record_input (node : NodeId) (db pk field : string)
    (isDefer : bool) : Element :=
  Element.mk node true None (Db.mk (Some db) (Some pk))
             (Some (Field.mk field "input" isDefer)) [] None None None.

(** An element with a model binding and an [id] attribute. *)
Definition model_input_id (node : NodeId) (name id : string) (isLazy : bool)
    : Element :=
  Element.mk node true (Some (Model.mk name "input" (-1) isLazy false))
             (Db.mk None None) None [] None (Some id) None.

(** A button with one action binding on [click]. *)
Definition action_button (node : NodeId) (method : string) : Element :=
  Element.mk node true None (Db.mk None None) None
             [ActionBinding.mk method "click" None false false]
             None None None.

(** The root of a component with a polling directive. *)
Definition polling_root (node : NodeId) (method : string) (timing : Z)
    : Element :=
  Element.mk node true None (Db.mk None None) None []
             (Some (PollDirective.mk method timing false)) None None.

(** Number of listeners registered on [target] for [eventType]. *)
Definition count_listeners (target : Target) (eventType : string)
    (s : State) : nat :=
  length (List.filter
            (fun l => match l_target l, target with
                      | OnNode a, OnNode b => isSameNode a b
                      | OnDocument, OnDocument => true
                      | _, _ => false
                      end && String.eqb (l_type l) eventType)
            (listeners s)).

(** The pending debounce timers of a call site. *)
Definition pending (site : CallSite) (s : State) : list Timeout :=
  List.filter (fun t => site_eqb (t_site t) site) (timeouts s).

(** A burst of method calls: before each call [(dt, method, errCallback)]
    the time [dt] passes and the event loop runs the timer of the
    method-call site if it is due. *)
Definition method_calls (calls : list (Z * string * option ErrCallback))
    (s : State) : State :=
  foldl (fun s c =>
           callMethod (snd (fst c)) (snd c)
                      (timeout_fire SiteMethod (advance (fst (fst c)) s)))
        s calls.

(** Every gap of the burst is shorter than the default window. *)
Definition within_window (calls : list (Z * string * option ErrCallback))
    : bool :=
  forallb (fun c => (0 <=? fst (fst c)) && (fst (fst c) <? 250)) calls.

(** The callback of the last call of a burst. *)
Definition last_callback (calls : list (Z * string * option ErrCallback))
    (first : Callback) : Callback :=
  List.last (map (fun c => CallMethodCallback (snd c)) calls) first.

(** The entries a burst appends. *)
Definition call_actions (calls : list (Z * string * option ErrCallback))
    : list Action :=
  map (fun c => CallMethod (snd (fst c)) [] None) calls.

(** ** Component name and paths *)

(** [contains(name, ".")] of utils.js (not part of the sources): the name
    has a dot. *)
Fixpoint contains_dot (s : string) : bool :=
  match s with
  | EmptyString => false
  | String c rest => Ascii.eqb c "."%char || contains_dot rest
  end.

(** The name the constructor keeps: [names[names.length - 2]] for a
    dotted name ([None] is [undefined], an index below zero). *)
Definition derive_name (name : string) : option string :=
  if contains_dot name then
    let names := split_dot name in
    if (length names <? 2)%nat then None
    else names !! (length names - 2)%nat
  else Some name.

(** A path resolved strictly: every segment is an own property of the
    level reached, and no level on the way is null. *)
Fixpoint resolve (pieces : list string) (v : jsval) : option jsval :=
  match pieces with
  | [] => Some v
  | piece :: rest =>
      match v with
      | JNull => None
      | _ => if hasOwnProperty v piece then resolve rest (get_prop v piece)
             else None
      end
  end.

(** [s'] is [s] but for the effects logged. *)
Definition only_trace (s s' : State) : Prop := s' = set_trace (trace s') s.

(** [e] has a deferred model binding. *)
Definition is_deferred (e : Element) : bool :=
  match Element.model e with
  | Some m => Model.isDefer m
  | None => false
  end.

(** The entry a model input on [fst ev] with value [snd ev] is about. *)
Definition sync_action (ev : Element * jsval) : option Action :=
  match Element.model (fst ev) with
  | Some m => Some (SyncInput (Model.name m) (snd ev))
  | None => None
  end.

(** The record listener goes past its guard: [db.name] and [db.pk] are
    both truthy. *)
Definition accepted_record (e : Element) : bool :=
  truthy (Db.name (Element.db e)) && truthy (Db.pk (Element.db e)).

(** The writes logged between [s] and [s'] all go to nodes other than
    [n]. *)
Definition writes_avoid (n : NodeId) (s s' : State) : Prop :=
  exists w, write_events (trace s') = write_events (trace s) ++ w
            /\ Forall (fun nv => fst nv <> n) w.

(** [e] has a model binding that is not deferred. *)
Definition is_plain (e : Element) : bool :=
  match Element.model e with
  | Some m => negb (Model.isDefer m)
  | None => false
  end.

(** ** Observations on the action listener *)

Definition is_callMethod (a : Action) : bool :=
  match a with CallMethod _ _ _ => true | _ => false end.

(** Number of method calls in a list of queue entries. *)
Definition count_calls (q : list Action) : nat :=
  length (List.filter is_callMethod q).

(** Some action binding registered for [eventType] sits on [node]. *)
Definition registered_for (eventType : string) (node : NodeId) (s : State)
    : bool :=
  match actionEvents s !! eventType with
  | Some bindings =>
      existsb (fun ae => isSameNode node (Element.el (snd ae))) bindings
  | None => false
  end.

(** The binding [ae] is on the node of [target] and its key filter, if it
    has one, is the key of the event. *)
Definition binding_fires (target : Element) (key : string)
    (ae : ActionBinding.t * Element) : bool :=
  isSameNode (Element.el target) (Element.el (snd ae))
  && (if truthy (ActionBinding.key (fst ae))
      then strict_eq (ActionBinding.key (fst ae)) (Some key)
      else true).

(** From [s] to [s'] the queue has only been appended to, with [n] method
    calls among the new entries, and the registry, the listeners, the
    attached event types and the triggering elements are the same. *)
Definition appends (n : nat) (s s' : State) : Prop :=
  (exists added, actionQueue s' = actionQueue s ++ added
                 /\ count_calls added = n)
  /\ modelEls s' = modelEls s
  /\ dbEls s' = dbEls s
  /\ actionEvents s' = actionEvents s
  /\ listeners s' = listeners s
  /\ lastTriggeringElements s' = lastTriggeringElements s
  /\ attachedEventTypes s' = attachedEventTypes s.

(** ** Observations on the registry *)

(** The walker callback binds the model of [e]: [e] is not the root, is a
    unicorn element and has a model binding. *)
Definition binds_model (rootNode : NodeId) (e : Element) : bool :=
  negb (isSameNode (Element.el e) rootNode)
  && Element.isUnicorn e
  && match Element.model e with Some _ => true | None => false end.

(** The walker callback binds the record field of [e]. *)
Definition binds_record (rootNode : NodeId) (e : Element) : bool :=
  negb (isSameNode (Element.el e) rootNode)
  && Element.isUnicorn e
  && match Element.field e with Some _ => true | None => false end
  && negb (db_isEmpty (Element.db e)).

(** The walker callback registers the actions of [e]. *)
Definition registers_actions (rootNode : NodeId) (e : Element) : bool :=
  negb (isSameNode (Element.el e) rootNode) && Element.isUnicorn e.

(** The elements of [els] whose node is neither in [seen] nor the node of
    an earlier element of [els]. *)
Fixpoint first_by_node (seen : list NodeId) (els : list Element)
    : list Element :=
  match els with
  | [] => []
  | e :: rest =>
      if existsb (Nat.eqb (Element.el e)) seen then first_by_node seen rest
      else e :: first_by_node (seen ++ [Element.el e]) rest
  end.

(** The action bindings for [eventType] in the markup walked, in
    document order. *)
Definition bindings_of (rootNode : NodeId) (eventType : string)
    (walked : list Element) : list (ActionBinding.t * Element) :=
  flat_map (fun e =>
              if registers_actions rootNode e then
                map (fun a => (a, e))
                    (List.filter
                       (fun a => String.eqb (ActionBinding.eventType a) eventType)
                       (Element.actions e))
              else [])
           walked.

(** [this.actionEvents] after one more binding has been registered. *)
Definition add_binding (e : Element)
    (m : gmap string (list (ActionBinding.t * Element)))
    (a : ActionBinding.t) : gmap string (list (ActionBinding.t * Element)) :=
  match m !! ActionBinding.eventType a with
  | Some registered =>
      <[ActionBinding.eventType a := registered ++ [(a, e)]]> m
  | None => <[ActionBinding.eventType a := [(a, e)]]> m
  end.

(** An entry of the table extended with the bindings [l]. *)
Definition extend_entry (o : option (list (ActionBinding.t * Element)))
    (l : list (ActionBinding.t * Element))
    : option (list (ActionBinding.t * Element)) :=
  match l with
  | [] => o
  | _ :: _ => Some (default [] o ++ l)
  end.

(** ** Histories

    What can happen to a component once it exists: its methods are
    called by the listeners it registered, by the timers it armed, by
    the completion of its requests, or from outside. *)

Inductive Event : Type :=
| Rebuild (walked : list Element)
| ModelInput (element : Element) (value : jsval)
| RecordInput (element : Element) (value : jsval)
| ActionEvent (eventType : string) (target : Element) (key : string)
              (descendants : list NodeId) (getValue : Element -> jsval)
| MethodCall (methodName : string) (errCallback : option ErrCallback)
| InitPolling (rootElement : Element)
| VisibilityChange (hidden : bool)
| IntervalElapsed (id : TimerId)
| TimeoutElapsed (site : CallSite)
| TimePasses (ms : Z)
| Response (callback : Callback)
           (triggeringElements : option (list Element))
           (dbUpdates : option (list (string * list (string * jsval))))
           (err : option string).

Section History.

Variable dbKey : Element -> string.

Definition step (s : State) (ev : Event) : State :=
  match ev with
  | Rebuild walked => refreshEventListeners walked s
  | ModelInput element value => modelListener element value s
  | RecordInput element value => dbListener element value s
  | ActionEvent eventType target key descendants getValue =>
      actionListener eventType target key descendants getValue s
  | MethodCall methodName errCallback => callMethod methodName errCallback s
  | InitPolling rootElement => initPolling rootElement s
  | VisibilityChange hidden => visibilityListener hidden s
  | IntervalElapsed id => interval_fire id s
  | TimeoutElapsed site => timeout_fire site s
  | TimePasses ms => advance ms s
  | Response callback triggeringElements dbUpdates err =>
      run_callback dbKey callback triggeringElements dbUpdates err s
  end.

Definition run (history : list Event) (s : State) : State :=
  foldl step s history.

End History.

(** The event types of the delegated action listeners among [ls]. *)
Definition action_listener_types (ls : list Listener) : list string :=
  omap (fun l => match l_handler l with
                 | ActionListener eventType => Some eventType
                 | _ => None
                 end) ls.

(** Number of delegated action listeners attached for [eventType]. *)
Definition count_action_listeners (eventType : string) (s : State) : nat :=
  length (List.filter (fun t => String.eqb t eventType)
                      (action_listener_types (listeners s))).

(** The delegated listeners attached are those recorded in
    [attachedEventTypes], one per event type. *)
Definition wired (s : State) : Prop :=
  action_listener_types (listeners s) = attachedEventTypes s
  /\ NoDup (attachedEventTypes s).

(** From [s] to [s'] no delegated listener has been attached and the
    queue has not shrunk. *)
Definition keeps (s s' : State) : Prop :=
  action_listener_types (listeners s') = action_listener_types (listeners s)
  /\ attachedEventTypes s' = attachedEventTypes s
  /\ (length (actionQueue s) <= length (actionQueue s'))%nat.

(** [s'] is [s] but for the registry (bound elements, action table,
    attached event types) and the listeners. *)
Definition only_registry (s s' : State) : Prop :=
  s' = set_listeners (listeners s')
         (set_attachedEventTypes (attachedEventTypes s')
            (set_actionEvents (actionEvents s')
               (set_dbEls (dbEls s') (set_modelEls (modelEls s') s)))).

(** Goals about fields that an operation leaves alone. *)
Ltac keeps_fields :=
  repeat split; simpl; rewrite ?length_app, ?length_map; simpl; try lia.

(** * Properties *)

(** ** Action queue: model inputs *)

Lemma strict_eq_Some_iff (o : option string) (x : string) :
  strict_eq o (Some x) = true <-> o = Some x.
Proof.
  destruct o as [y|]; simpl; [|split; discriminate].
  rewrite String.eqb_eq. split; congruence.
Qed.

Lemma is_deferred_on_inv name e :
  is_deferred_on name e = true ->
  exists m, Element.model e = Some m /\ Model.name m = name
            /\ Model.isDefer m = true.
Proof.
  unfold is_deferred_on. destruct (Element.model e) as [m|]; [|discriminate].
  intros [Hn Hd]%andb_true_iff. apply String.eqb_eq in Hn. eauto.
Qed.

(** Entries that do not carry the name are left alone by the scan. *)
Lemma overwrite_no_match name v q :
  existsb (name_matches name) q = false ->
  map (overwrite_value name v) q = q.
Proof.
  induction q as [|a q IH]; simpl; [reflexivity|].
  intros [Ha Hq]%orb_false_iff. unfold overwrite_value at 1.
  rewrite Ha, IH by assumption. reflexivity.
Qed.

(** A deferred model input applies the coalescing rule to the queue. *)
Lemma modelListener_deferred name e v s :
  is_deferred_on name e = true ->
  actionQueue (modelListener e v s) = coalesce_syncInput name v (actionQueue s).
Proof.
  intros (m & Hm & <- & Hd)%is_deferred_on_inv.
  unfold modelListener, coalesce_syncInput. rewrite Hm, Hd.
  destruct (existsb _ _) eqn:Hfound; simpl; [reflexivity|].
  rewrite overwrite_no_match by assumption. reflexivity.
Qed.

Lemma name_matches_sync name v : name_matches name (SyncInput name v) = true.
Proof. unfold name_matches; simpl. apply String.eqb_refl. Qed.

Lemma coalesce_syncInput_fresh name v q :
  existsb (name_matches name) q = false ->
  coalesce_syncInput name v q = q ++ [SyncInput name v].
Proof. unfold coalesce_syncInput. intros ->. reflexivity. Qed.

Lemma coalesce_syncInput_again name v w q :
  existsb (name_matches name) q = false ->
  coalesce_syncInput name v (q ++ [SyncInput name w]) = q ++ [SyncInput name v].
Proof.
  intros Hq. unfold coalesce_syncInput.
  rewrite existsb_app. simpl. rewrite name_matches_sync, orb_true_r.
  rewrite map_app, overwrite_no_match by assumption.
  simpl. unfold overwrite_value. rewrite name_matches_sync. reflexivity.
Qed.

Lemma model_events_snoc evs e v s :
  model_events (evs ++ [(e, v)]) s = modelListener e v (model_events evs s).
Proof. unfold model_events. rewrite foldl_app. reflexivity. Qed.

(** After a non-empty run of deferred inputs on [name], started on a
    queue with no entry of that name, the queue has gained exactly one
    entry, holding the last value. *)
Lemma deferred_run_queue name evs e v s :
  forallb (fun ev => is_deferred_on name (fst ev)) evs = true ->
  is_deferred_on name e = true ->
  existsb (name_matches name) (actionQueue s) = false ->
  actionQueue (model_events (evs ++ [(e, v)]) s)
  = actionQueue s ++ [SyncInput name v].
Proof.
  intros Hevs He Hs. revert e v He.
  induction evs as [|[e' v'] evs IH] using rev_ind; intros e v He.
  - simpl. rewrite (modelListener_deferred name) by assumption.
    apply coalesce_syncInput_fresh; assumption.
  - rewrite forallb_app in Hevs. apply andb_true_iff in Hevs as [Hevs He'].
    simpl in He'. rewrite andb_true_r in He'.
    rewrite model_events_snoc, (modelListener_deferred name) by assumption.
    rewrite IH by assumption.
    apply coalesce_syncInput_again; assumption.
Qed.

Lemma count_sync_fresh name v q :
  existsb (name_matches name) q = false ->
  count_sync name (q ++ [SyncInput name v]) = 1%nat.
Proof.
  intros Hq. unfold count_sync. rewrite List.filter_app, length_app.
  simpl. rewrite name_matches_sync. simpl.
  assert (List.filter (fun a => is_syncInput a && name_matches name a) q = [])
    as ->; [|reflexivity].
  induction q as [|a q IH]; simpl; [reflexivity|].
  simpl in Hq. apply orb_false_iff in Hq as [Ha Hq].
  rewrite Ha, andb_false_r. auto.
Qed.

(** C1 (amended).  Coalescing is the behaviour of _deferred_ model
    inputs: a deferred input on [name] applies the coalescing rule (scan
    for an entry with that payload name; if found overwrite the value in
    place and append nothing; otherwise append), so after any non-empty
    sequence of deferred inputs on [name], started on a queue holding no
    entry of that name, the queue has exactly one [syncInput] entry for
    [name], and it holds the value entered last. *)
Theorem C1_deferred_syncInput_coalesced name evs e v s :
  forallb (fun ev => is_deferred_on name (fst ev)) evs = true ->
  is_deferred_on name e = true ->
  let before := actionQueue (model_events evs s) in
  let after := actionQueue (model_events (evs ++ [(e, v)]) s) in
  after = coalesce_syncInput name v before
  /\ (existsb (name_matches name) (actionQueue s) = false ->
      after = actionQueue s ++ [SyncInput name v]
      /\ count_sync name after = 1%nat).
Proof.
  intros Hevs He before after. subst before after. split.
  - rewrite model_events_snoc. apply modelListener_deferred; assumption.
  - intros Hs. rewrite (deferred_run_queue name) by assumption.
    split; [reflexivity|]. apply count_sync_fresh; assumption.
Qed.

Lemma C1_deferred_syncInput_coalesced_witness :
  count_sync "bio"
    (actionQueue
       (model_events [(model_input 1 "bio" false true, JStr "a");
                      (model_input 1 "bio" false true, JStr "ab")]
                     (new_component JNull 0)))
  = 1%nat.
Proof.
  exact (proj2 (proj2 (C1_deferred_syncInput_coalesced "bio"
                         [(model_input 1 "bio" false true, JStr "a")]
                         (model_input 1 "bio" false true) (JStr "ab")
                         (new_component JNull 0) eq_refl eq_refl)
                      eq_refl)).
Defined.

(** C1 as stated fails: two inputs on a field that is not deferred leave
    two [syncInput] entries for it in the queue; and deferred inputs on a
    field whose name is that of a queued method call leave none. *)
Lemma C1_plain_inputs_not_coalesced :
  let q := actionQueue
             (model_events [(model_input 1 "bio" false false, JStr "a");
                            (model_input 1 "bio" false false, JStr "ab")]
                           (new_component JNull 0)) in
  let q' := actionQueue
              (model_events [(model_input 1 "save" false true, JStr "a");
                             (model_input 1 "save" false true, JStr "ab")]
                            (callMethod "save" None (new_component JNull 0))) in
  q = [SyncInput "bio" (JStr "a"); SyncInput "bio" (JStr "ab")]
  /\ count_sync "bio" q = 2%nat
  /\ q' = [CallMethod "save" [] (Some (JStr "ab"))]
  /\ count_sync "save" q' = 0%nat.
Proof. repeat split; reflexivity. Qed.

(** ** Action queue: record inputs *)

Lemma is_deferred_record_inv db pk e :
  is_deferred_record db pk e = true ->
  Db.name (Element.db e) = Some db /\ Db.pk (Element.db e) = Some pk
  /\ truthy (Some db) = true /\ truthy (Some pk) = true
  /\ field_isDefer e = true.
Proof.
  unfold is_deferred_record.
  intros [[[[Hd Hp]%andb_true_iff Htd]%andb_true_iff Htp]%andb_true_iff Hf]%andb_true_iff.
  apply strict_eq_Some_iff in Hd, Hp. auto.
Qed.

Lemma merge_no_match db pk k v q :
  existsb (record_matches db pk) q = false ->
  map (fun a => if record_matches db pk a then set_payload_field k v a else a) q
  = q.
Proof.
  induction q as [|a q IH]; simpl; [reflexivity|].
  intros [Ha Hq]%orb_false_iff. rewrite Ha, IH by assumption. reflexivity.
Qed.

(** A deferred record input applies the coalescing rule to the queue. *)
Lemma dbListener_deferred db pk e v s :
  is_deferred_record db pk e = true ->
  actionQueue (dbListener e v s)
  = coalesce_dbInput db pk (field_name e) v (actionQueue s).
Proof.
  intros (Hd & Hp & Htd & Htp & Hf)%is_deferred_record_inv.
  unfold dbListener, coalesce_dbInput. rewrite Hd, Hp, Htd, Htp, Hf. simpl.
  destruct (existsb _ _) eqn:Hfound; simpl; [reflexivity|].
  rewrite merge_no_match by assumption. reflexivity.
Qed.

Lemma record_matches_db db pk fields :
  record_matches (Some db) (Some pk) (DbInput (Some db) (Some pk) fields) = true.
Proof. unfold record_matches; simpl. rewrite !String.eqb_refl. reflexivity. Qed.

Lemma coalesce_dbInput_again db pk k v fields q :
  existsb (record_matches (Some db) (Some pk)) q = false ->
  coalesce_dbInput db pk k v (q ++ [DbInput (Some db) (Some pk) fields])
  = q ++ [DbInput (Some db) (Some pk) (<[k := v]> fields)].
Proof.
  intros Hq. unfold coalesce_dbInput.
  rewrite existsb_app. simpl. rewrite record_matches_db, orb_true_r.
  rewrite map_app, merge_no_match by assumption.
  simpl. rewrite record_matches_db. reflexivity.
Qed.

Lemma db_events_snoc evs e v s :
  db_events (evs ++ [(e, v)]) s = dbListener e v (db_events evs s).
Proof. unfold db_events. rewrite foldl_app. reflexivity. Qed.

Lemma merge_fields_snoc evs e v :
  merge_fields (evs ++ [(e, v)]) = <[field_name e := v]> (merge_fields evs).
Proof. unfold merge_fields. rewrite foldl_app. reflexivity. Qed.

(** After a non-empty run of deferred inputs on one record, started on a
    queue with no entry of that record, the queue has gained one entry
    whose fields are the merge of all the inputs. *)
Lemma deferred_record_run_queue db pk evs e v s :
  forallb (fun ev => is_deferred_record db pk (fst ev)) evs = true ->
  is_deferred_record db pk e = true ->
  existsb (record_matches (Some db) (Some pk)) (actionQueue s) = false ->
  actionQueue (db_events (evs ++ [(e, v)]) s)
  = actionQueue s
      ++ [DbInput (Some db) (Some pk) (merge_fields (evs ++ [(e, v)]))].
Proof.
  intros Hevs He Hs. revert e v He.
  induction evs as [|[e' v'] evs IH] using rev_ind; intros e v He.
  - simpl. rewrite (dbListener_deferred db pk) by assumption.
    unfold coalesce_dbInput. rewrite Hs.
    unfold merge_fields. simpl. rewrite insert_empty. reflexivity.
  - rewrite forallb_app in Hevs. apply andb_true_iff in Hevs as [Hevs He'].
    simpl in He'. rewrite andb_true_r in He'.
    rewrite db_events_snoc, (dbListener_deferred db pk) by assumption.
    rewrite IH by assumption.
    rewrite coalesce_dbInput_again by assumption.
    rewrite (merge_fields_snoc (evs ++ [(e', v')])). reflexivity.
Qed.

(** Last write wins, field by field. *)
Lemma merge_fields_latest evs f :
  merge_fields evs !! f = latest_value f evs.
Proof.
  induction evs as [|[e v] evs IH] using rev_ind.
  - apply lookup_empty.
  - rewrite merge_fields_snoc. unfold latest_value. rewrite foldl_app. simpl.
    fold (latest_value f evs). rewrite <- IH.
    destruct (String.eqb_spec (field_name e) f) as [->|Hne].
    + apply lookup_insert_eq.
    + apply lookup_insert_ne. assumption.
Qed.

Lemma count_db_fresh db pk fields q :
  existsb (record_matches (Some db) (Some pk)) q = false ->
  count_db db pk (q ++ [DbInput (Some db) (Some pk) fields]) = 1%nat.
Proof.
  intros Hq. unfold count_db. rewrite List.filter_app, length_app.
  simpl. rewrite record_matches_db. simpl.
  assert (List.filter
            (fun a => is_dbInput a && record_matches (Some db) (Some pk) a) q
          = []) as ->; [|reflexivity].
  induction q as [|a q IH]; simpl; [reflexivity|].
  simpl in Hq. apply orb_false_iff in Hq as [Ha Hq].
  rewrite Ha, andb_false_r. auto.
Qed.

(** C2 (amended).  Coalescing is the behaviour of _deferred_ record
    inputs: a deferred input on the record [(db, pk)] merges its field
    into the entry of that record if the queue has one and appends an
    entry otherwise, so after any non-empty sequence of deferred inputs
    on [(db, pk)], started on a queue holding no entry of that record,
    the queue has exactly one [dbInput] entry for it, and its fields hold
    for every field name the value entered last. *)
Theorem C2_deferred_dbInput_merged db pk evs e v s :
  forallb (fun ev => is_deferred_record db pk (fst ev)) evs = true ->
  is_deferred_record db pk e = true ->
  let before := actionQueue (db_events evs s) in
  let after := actionQueue (db_events (evs ++ [(e, v)]) s) in
  after = coalesce_dbInput db pk (field_name e) v before
  /\ (existsb (record_matches (Some db) (Some pk)) (actionQueue s) = false ->
      after = actionQueue s
                ++ [DbInput (Some db) (Some pk) (merge_fields (evs ++ [(e, v)]))]
      /\ count_db db pk after = 1%nat
      /\ forall f, merge_fields (evs ++ [(e, v)]) !! f
                   = latest_value f (evs ++ [(e, v)])).
Proof.
  intros Hevs He before after. subst before after. split.
  - rewrite db_events_snoc. apply dbListener_deferred; assumption.
  - intros Hs. rewrite (deferred_record_run_queue db pk) by assumption.
    split; [reflexivity|]. split.
    + apply count_db_fresh; assumption.
    + intros f. apply merge_fields_latest.
Qed.

Lemma C2_deferred_dbInput_merged_witness :
  actionQueue
    (db_events [(record_input 1 "book" "7" "title" true, JStr "Dune");
                (record_input 2 "book" "7" "year" true, JNum 1965);
                (record_input 1 "book" "7" "title" true, JStr "Dune II")]
               (new_component JNull 0))
  = [DbInput (Some "book") (Some "7")
       (merge_fields
          [(record_input 1 "book" "7" "title" true, JStr "Dune");
           (record_input 2 "book" "7" "year" true, JNum 1965);
           (record_input 1 "book" "7" "title" true, JStr "Dune II")])].
Proof.
  exact (proj1 (proj2 (C2_deferred_dbInput_merged "book" "7"
                         [(record_input 1 "book" "7" "title" true, JStr "Dune");
                          (record_input 2 "book" "7" "year" true, JNum 1965)]
                         (record_input 1 "book" "7" "title" true)
                         (JStr "Dune II")
                         (new_component JNull 0) eq_refl eq_refl)
                      eq_refl)).
Defined.

(** C2 as stated fails: two inputs on one record through fields that are
    not deferred leave two [dbInput] entries for the record. *)
Lemma C2_plain_record_inputs_not_merged :
  let q := actionQueue
             (db_events [(record_input 1 "book" "7" "title" false, JStr "Dune");
                         (record_input 2 "book" "7" "year" false, JNum 1965)]
                        (new_component JNull 0)) in
  q = [DbInput (Some "book") (Some "7") {[ "title" := JStr "Dune" ]};
       DbInput (Some "book") (Some "7") {[ "year" := JNum 1965 ]}]
  /\ count_db "book" "7" q = 2%nat.
Proof. split; reflexivity. Qed.

(** ** The scan of the model listener does not look at the action type *)

Lemma overwrite_value_keeps_name name v a :
  payload_name (overwrite_value name v a) = payload_name a.
Proof. unfold overwrite_value. destruct (name_matches name a), a; reflexivity. Qed.

Lemma overwrite_value_keeps_type name v a :
  is_syncInput (overwrite_value name v a) = is_syncInput a.
Proof. unfold overwrite_value. destruct (name_matches name a), a; reflexivity. Qed.

Lemma count_sync_overwrite name n v q :
  count_sync n (map (overwrite_value name v) q) = count_sync n q.
Proof.
  unfold count_sync. induction q as [|a q IH]; simpl; [reflexivity|].
  assert (Hsame : is_syncInput (overwrite_value name v a)
                  && name_matches n (overwrite_value name v a)
                  = is_syncInput a && name_matches n a).
  { unfold name_matches.
    rewrite overwrite_value_keeps_name, overwrite_value_keeps_type.
    reflexivity. }
  rewrite Hsame. destruct (is_syncInput a && name_matches n a); simpl;
    rewrite IH; reflexivity.
Qed.

Lemma name_matches_call name params cv :
  name_matches name (CallMethod name params cv) = true.
Proof. unfold name_matches; simpl. apply String.eqb_refl. Qed.

(** C9.  The coalescing scan of a deferred model input matches entries by
    payload name alone: if the queue holds a [callMethod] entry whose
    method name is the field name of the input, the input writes its
    value into the payload of that entry, in place, and appends no
    [syncInput] entry (the queue keeps its length and its number of
    [syncInput] entries, and the element is not recorded as triggering). *)
Theorem C9_deferred_input_overwrites_callMethod
    name e v s before params cv rest :
  is_deferred_on name e = true ->
  actionQueue s = before ++ CallMethod name params cv :: rest ->
  let s' := modelListener e v s in
  actionQueue s'
  = map (overwrite_value name v) before
      ++ CallMethod name params (Some v) :: map (overwrite_value name v) rest
  /\ length (actionQueue s') = length (actionQueue s)
  /\ count_sync name (actionQueue s') = count_sync name (actionQueue s)
  /\ lastTriggeringElements s' = lastTriggeringElements s.
Proof.
  intros He Hq s'. subst s'.
  assert (Hfound : existsb (name_matches name) (actionQueue s) = true).
  { rewrite Hq, existsb_app. simpl.
    rewrite name_matches_call, orb_true_r. reflexivity. }
  assert (Hqueue : actionQueue (modelListener e v s)
                   = map (overwrite_value name v) (actionQueue s)).
  { rewrite (modelListener_deferred name) by assumption.
    unfold coalesce_syncInput. rewrite Hfound. reflexivity. }
  repeat split.
  - rewrite Hqueue, Hq, map_app. simpl.
    unfold overwrite_value at 2. rewrite name_matches_call. reflexivity.
  - rewrite Hqueue. apply length_map.
  - rewrite Hqueue. apply count_sync_overwrite.
  - apply is_deferred_on_inv in He as (m & Hm & <- & Hd).
    unfold modelListener. rewrite Hm, Hd, Hfound. reflexivity.
Qed.

Lemma C9_deferred_input_overwrites_callMethod_witness :
  actionQueue
    (modelListener (model_input 1 "save" false true) (JStr "x")
       (callMethod "save" None (new_component JNull 0)))
  = [CallMethod "save" [] (Some (JStr "x"))].
Proof.
  exact (proj1 (C9_deferred_input_overwrites_callMethod "save"
                  (model_input 1 "save" false true) (JStr "x")
                  (callMethod "save" None (new_component JNull 0))
                  [] [] None [] eq_refl eq_refl)).
Defined.

(** ** Dispatch of record inputs *)

(** C10.  A record input that is not deferred dispatches with the
    debounce time of the element's _model_ binding:
    [sendMessage(element.model.debounceTime, ...)].  On a record-bound
    element without a model binding that argument is [undefined]; it is
    not the sentinel [-1], so the timer is armed with an undefined window
    instead of the default one. *)
Theorem C10_record_input_dispatches_with_model_debounceTime e v s :
  truthy (Db.name (Element.db e)) = true ->
  truthy (Db.pk (Element.db e)) = true ->
  field_isDefer e = false ->
  let queued :=
    push_action (DbInput (Db.name (Element.db e)) (Db.pk (Element.db e))
                         {[ field_name e := v ]})
                (push_triggering e s) in
  dbListener e v s
  = sendMessage (model_debounceTime e) (DbCallback (Element.el e)) queued
  /\ (Element.model e = None ->
      model_debounceTime e = None
      /\ is_minus_one (model_debounceTime e) = false
      /\ last (timeouts (dbListener e v s))
         = Some (mkTimeout (SiteDb (Element.el e)) (clock s) None
                           (DbCallback (Element.el e)))).
Proof.
  intros Hd Hp Hf queued. subst queued.
  assert (Hrun : dbListener e v s
                 = sendMessage (model_debounceTime e) (DbCallback (Element.el e))
                     (push_action
                        (DbInput (Db.name (Element.db e)) (Db.pk (Element.db e))
                                 {[ field_name e := v ]})
                        (push_triggering e s))).
  { unfold dbListener. rewrite Hd, Hp, Hf. reflexivity. }
  split; [exact Hrun|].
  intros Hm. unfold model_debounceTime in *. rewrite Hm in *. simpl.
  repeat split. rewrite Hrun. unfold sendMessage, debounce_send. simpl.
  apply last_snoc.
Qed.

Lemma C10_record_input_dispatches_with_model_debounceTime_witness :
  t_wait <$> last (timeouts (dbListener (record_input 1 "book" "7" "title" false)
                                        (JStr "Dune") (new_component JNull 0)))
  = Some None.
Proof.
  rewrite (proj2 (proj2 (proj2
             (C10_record_input_dispatches_with_model_debounceTime
                (record_input 1 "book" "7" "title" false) (JStr "Dune")
                (new_component JNull 0) eq_refl eq_refl eq_refl)
             eq_refl))).
  reflexivity.
Defined.

(** ** Merge engine: [setValue] *)

(** A segment that is absent at the level reached is skipped: the loop
    goes on with the next segment at the same level. *)
Lemma setValue_loop_skips_absent element piece rest _data s :
  _data <> JNull ->
  hasOwnProperty _data piece = false ->
  setValue_loop element (piece :: rest) _data s
  = setValue_loop element rest _data s.
Proof.
  intros Hnull Habsent. simpl. rewrite Habsent.
  destruct _data; congruence.
Qed.

(** The two cases of the specification. *)
Example setValue_nested_path :
  write_events
    (trace (setValue (model_input 1 "user.address.city" false false)
              (new_component
                 (JObj [("user",
                         JObj [("address", JObj [("city", JStr "Lyon")])])])
                 0)))
  = [(1%nat, JStr "Lyon")].
Proof. reflexivity. Qed.

Example setValue_missing_structure :
  trace (setValue (model_input 1 "user.address.city" false false)
           (new_component (JObj [("user", JObj [])]) 0))
  = [].
Proof. reflexivity. Qed.

(** C6.  [setValue] on the path ["user.address.city"] against
    [{ user: { city: "Paris" } }]: the intermediate segment [address] is
    absent below [user], yet the traversal does not abort; it resolves
    [city] at the level of [user] and writes ["Paris"] to the element. *)
Theorem C6_setValue_absent_segment_still_writes :
  trace (setValue (model_input 1 "user.address.city" false false)
           (new_component (JObj [("user", JObj [("city", JStr "Paris")])]) 0))
  = [ESetValue 1 (JStr "Paris")].
Proof. reflexivity. Qed.

(** ** Merge engine: which elements [setModelValues] writes *)

(** [shouldSetValue] is raised as soon as _some_ triggering element is a
    different node. *)
Lemma shouldSetValue_exists element triggeringElements :
  shouldSetValue element triggeringElements
  = existsb (fun t => negb (isSameNode (Element.el element) (Element.el t)))
            triggeringElements.
Proof.
  unfold shouldSetValue.
  assert (H : forall acc,
             foldl (fun should t =>
                      if negb (isSameNode (Element.el element) (Element.el t))
                      then true else should) acc triggeringElements
             = acc || existsb (fun t => negb (isSameNode (Element.el element)
                                                         (Element.el t)))
                              triggeringElements).
  { induction triggeringElements as [|t ts IH]; intros acc; simpl.
    - rewrite orb_false_r. reflexivity.
    - rewrite IH.
      destruct (negb (isSameNode (Element.el element) (Element.el t))), acc;
        reflexivity. }
  apply H.
Qed.

(** With a single triggering element, that element is left alone. *)
Example setModelValues_one_trigger :
  write_events
    (trace (setModelValues (Some [model_input 1 "a" false false])
              (refreshEventListeners
                 [model_input 1 "a" false false;
                  model_input 2 "b" false false;
                  model_input 3 "c" false false]
                 (new_component
                    (JObj [("a", JNum 1); ("b", JNum 2); ("c", JNum 3)]) 0))))
  = [(2%nat, JNum 2); (3%nat, JNum 3)].
Proof. reflexivity. Qed.

(** C5.  With the two triggering elements [A] (node 1) and [B] (node 2)
    and the bound model elements [A], [B], [C], [setModelValues] applies
    [setValue] to all three: [A] differs from [B] and [B] from [A], so
    both triggering elements are written too. *)
Theorem C5_setModelValues_writes_triggering_elements :
  write_events
    (trace (setModelValues (Some [model_input 1 "a" false false;
                                  model_input 2 "b" false false])
              (refreshEventListeners
                 [model_input 1 "a" false false;
                  model_input 2 "b" false false;
                  model_input 3 "c" false false]
                 (new_component
                    (JObj [("a", JNum 1); ("b", JNum 2); ("c", JNum 3)]) 0))))
  = [(1%nat, JNum 1); (2%nat, JNum 2); (3%nat, JNum 3)].
Proof. reflexivity. Qed.

(** ** Merge engine: focus restoration *)

Lemma focus_events_app t u :
  focus_events (t ++ u) = focus_events t ++ focus_events u.
Proof. unfold focus_events. apply flat_map_app. Qed.

(** One pass over the bound elements focuses the first match, unless an
    element has been focused already. *)
Lemma focus_scan_first_match attr trigger els focused s :
  focus_scan attr trigger els (focused, s)
  = if focused then (true, s)
    else match first_match attr trigger els with
         | Some e => (true, element_focus e s)
         | None => (false, s)
         end.
Proof.
  unfold focus_scan, first_match. revert focused s.
  induction els as [|e els IH]; intros focused s; simpl.
  - destruct focused; reflexivity.
  - destruct focused; simpl.
    + rewrite IH. reflexivity.
    + fold (attr_match attr trigger e).
      destruct (attr_match attr trigger e); rewrite IH; reflexivity.
Qed.

(** The code focuses exactly the element the specification designates. *)
Lemma restore_focus_spec triggeringElements s :
  restore_focus triggeringElements s
  = match spec_focus_target triggeringElements (modelEls s) with
    | Some e => element_focus e s
    | None => s
    end.
Proof.
  unfold restore_focus, spec_focus_target.
  destruct triggeringElements as [|t ts]; [reflexivity|].
  replace (0 <? length (t :: ts))%nat with true by reflexivity.
  destruct (last (t :: ts)) as [trigger|]; [|reflexivity].
  destruct (Element.model trigger) as [model|]; [|reflexivity].
  destruct (Model.isLazy model); [reflexivity|]. simpl.
  rewrite focus_scan_first_match.
  destruct (first_match Element.id trigger (modelEls s)) as [e|].
  - rewrite focus_scan_first_match. reflexivity.
  - rewrite focus_scan_first_match.
    destruct (first_match Element.key trigger (modelEls s)); reflexivity.
Qed.

(** Writing values never moves the focus. *)
Lemma setValue_loop_focus element pieces _data s :
  focus_events (trace (setValue_loop element pieces _data s))
  = focus_events (trace s)
  /\ modelEls (setValue_loop element pieces _data s) = modelEls s.
Proof.
  revert _data. induction pieces as [|piece rest IH]; intros _data; simpl.
  - split; reflexivity.
  - assert (Hstep :
      focus_events
        (trace (if hasOwnProperty _data piece
                then match rest with
                     | [] => element_setValue element (get_prop _data piece) s
                     | _ :: _ =>
                         setValue_loop element rest (get_prop _data piece) s
                     end
                else setValue_loop element rest _data s))
      = focus_events (trace s)
      /\ modelEls (if hasOwnProperty _data piece
                   then match rest with
                        | [] => element_setValue element (get_prop _data piece) s
                        | _ :: _ =>
                            setValue_loop element rest (get_prop _data piece) s
                        end
                   else setValue_loop element rest _data s)
         = modelEls s).
    { destruct (hasOwnProperty _data piece); [|apply IH].
      destruct rest; [|apply IH].
      simpl. rewrite focus_events_app. simpl. rewrite app_nil_r.
      split; reflexivity. }
    destruct _data; try exact Hstep. split; reflexivity.
Qed.

Lemma setValue_focus element s :
  focus_events (trace (setValue element s)) = focus_events (trace s)
  /\ modelEls (setValue element s) = modelEls s.
Proof.
  unfold setValue. destruct (Element.model element); [|split; reflexivity].
  apply setValue_loop_focus.
Qed.

Lemma setValue_pass_focus (test : Element -> bool) els s :
  focus_events
    (trace (foldl (fun s element => if test element then setValue element s
                                    else s) s els))
  = focus_events (trace s).
Proof.
  revert s. induction els as [|e els IH]; intros s; simpl; [reflexivity|].
  rewrite IH. destruct (test e); [|reflexivity]. apply setValue_focus.
Qed.

(** C8.  During [setModelValues] the focus moves to the element
    designated by the specification and to no other: the last triggering
    element is taken; if it is bound and not lazy, the first bound model
    element with the same non-empty [id] is focused, or else the first
    one with the same non-empty [key].  So at most one element is
    focused, none when the last trigger is lazy or when nothing matches,
    and an [id] match takes precedence over a [key] match. *)
Theorem C8_focus_restoration triggeringElements s :
  let focused :=
    match spec_focus_target triggeringElements (modelEls s) with
    | Some e => [Element.el e]
    | None => []
    end in
  focus_events (trace (setModelValues (Some triggeringElements) s))
  = focus_events (trace s) ++ focused
  /\ (length focused <= 1)%nat
  /\ (forall trigger model,
        last triggeringElements = Some trigger ->
        Element.model trigger = Some model ->
        Model.isLazy model = true ->
        focused = [])
  /\ (forall trigger,
        last triggeringElements = Some trigger ->
        first_match Element.id trigger (modelEls s) = None ->
        first_match Element.key trigger (modelEls s) = None ->
        focused = [])
  /\ (forall trigger model e,
        last triggeringElements = Some trigger ->
        Element.model trigger = Some model ->
        Model.isLazy model = false ->
        first_match Element.id trigger (modelEls s) = Some e ->
        focused = [Element.el e])
  /\ (forall trigger model e,
        last triggeringElements = Some trigger ->
        Element.model trigger = Some model ->
        Model.isLazy model = false ->
        first_match Element.id trigger (modelEls s) = None ->
        first_match Element.key trigger (modelEls s) = Some e ->
        focused = [Element.el e]).
Proof.
  intros focused. subst focused. repeat split.
  - unfold setModelValues. simpl. rewrite setValue_pass_focus.
    rewrite restore_focus_spec.
    destruct (spec_focus_target triggeringElements (modelEls s)).
    + simpl. rewrite focus_events_app. reflexivity.
    + rewrite app_nil_r. reflexivity.
  - destruct (spec_focus_target _ _); simpl; lia.
  - intros trigger model Hlast Hmodel Hlazy.
    unfold spec_focus_target. rewrite Hlast, Hmodel, Hlazy. reflexivity.
  - intros trigger Hlast Hid Hkey.
    unfold spec_focus_target. rewrite Hlast, Hid, Hkey.
    destruct (Element.model trigger) as [model|]; [|reflexivity].
    destruct (Model.isLazy model); reflexivity.
  - intros trigger model e Hlast Hmodel Hlazy Hid.
    unfold spec_focus_target. rewrite Hlast, Hmodel, Hlazy, Hid. reflexivity.
  - intros trigger model e Hlast Hmodel Hlazy Hid Hkey.
    unfold spec_focus_target. rewrite Hlast, Hmodel, Hlazy, Hid, Hkey.
    reflexivity.
Qed.

Lemma C8_focus_restoration_witness :
  focus_events
    (trace (setModelValues
              (Some [model_input_id 1 "first" "a" false;
                     model_input_id 2 "last" "b" false])
              (refreshEventListeners
                 [model_input_id 1 "first" "a" false;
                  model_input_id 3 "last" "b" false]
                 (new_component JNull 0))))
  = [3%nat].
Proof.
  destruct (C8_focus_restoration
              [model_input_id 1 "first" "a" false;
               model_input_id 2 "last" "b" false]
              (refreshEventListeners
                 [model_input_id 1 "first" "a" false;
                  model_input_id 3 "last" "b" false]
                 (new_component JNull 0)))
    as (Hfocus & _ & _ & _ & Hid & _).
  rewrite Hfocus.
  rewrite (Hid (model_input_id 2 "last" "b" false)
               (Model.mk "last" "input" (-1) false false)
               (model_input_id 3 "last" "b" false)
               eq_refl eq_refl eq_refl eq_refl).
  reflexivity.
Defined.

(** ** Event listener registry *)

(** Whatever the registry held before, a rebuild attaches one more
    listener to a model-bound element it walks over: the set of bound
    elements it checks has just been emptied. *)
Lemma rebuild_attaches_model_listener node name isLazy isDefer s :
  root s <> node ->
  listeners (refreshEventListeners [model_input node name isLazy isDefer] s)
  = listeners s
      ++ [mkListener (OnNode node) "input"
                     (ModelListener (model_input node name isLazy isDefer))].
Proof.
  intros Hroot. unfold refreshEventListeners, register_element. simpl.
  unfold isSameNode.
  destruct (Nat.eqb_spec node (root s)) as [->|_]; [congruence|].
  reflexivity.
Qed.

(** C4.  A component whose markup holds one model-bound input (node 1)
    and one button with a [click] action (node 2): after the rebuild of
    the constructor the input has one listener; after a second rebuild
    over the same markup it has two, although the bound elements are the
    same.  The document-level [click] listener is attached once only. *)
Theorem C4_rebuild_duplicates_element_listeners :
  let walked := [model_input 1 "name" false false; action_button 2 "save"] in
  let s1 := refreshEventListeners walked (new_component JNull 0) in
  let s2 := refreshEventListeners walked s1 in
  count_listeners (OnNode 1) "input" s1 = 1%nat
  /\ count_listeners (OnNode 1) "input" s2 = 2%nat
  /\ modelEls s2 = modelEls s1
  /\ count_listeners OnDocument "click" s1 = 1%nat
  /\ count_listeners OnDocument "click" s2 = 1%nat.
Proof. repeat split; reflexivity. Qed.

(** ** Polling controller *)

(** The error handler of [startPolling] captures [timer] right after
    [this.poll.timer] has been set to [null]: it holds no timer. *)
Lemma startPolling_handler directive s :
  poll s = Some directive ->
  intervals (startPolling s)
  = intervals s
      ++ [mkInterval (next_timer s) (PollDirective.timing directive)
                     (PollDirective.method directive) (HandleError None)]
  /\ poll_timer (startPolling s) = Some (next_timer s)
  /\ actionQueue (startPolling s)
     = actionQueue s ++ [CallMethod (PollDirective.method directive) [] None].
Proof.
  intros Hpoll. unfold startPolling. simpl. rewrite Hpoll.
  repeat split.
Qed.

(** Hence an error reported to it clears nothing. *)
Lemma handleError_keeps_intervals err s :
  intervals (handleError (HandleError None) err s) = intervals s.
Proof. unfold handleError. destruct (truthy err); reflexivity. Qed.

(** C3.  A component whose root carries the polling directive
    [{method: "refresh", timing: 5000}]: [refresh] is invoked once at
    start and an interval is armed.  When the first invocation completes
    with the error ["boom"], the error is logged but the interval stays
    active, and its next tick invokes [refresh] again. *)
Theorem C3_polling_survives_error (dbKey : Element -> string) :
  let s0 := construct JNull (polling_root 0 "refresh" 5000) [] in
  let s1 := timeout_fire SiteMethod (advance 250 s0) in
  let callback := CallMethodCallback (Some (HandleError None)) in
  let s2 := run_callback dbKey callback None None (Some "boom") s1 in
  let s3 := interval_fire 1 (advance 5000 s2) in
  actionQueue s0 = [CallMethod "refresh" [] None]
  /\ intervals s0 = [mkInterval 1 5000 "refresh" (HandleError None)]
  /\ network s1 = [mkRequest [CallMethod "refresh" [] None] callback]
  /\ trace s2 = [EConsoleError "boom"]
  /\ interval_active 1 s2 = true
  /\ actionQueue s3
     = [CallMethod "refresh" [] None; CallMethod "refresh" [] None].
Proof. repeat split; reflexivity. Qed.

(** ** Dispatcher: the default window *)

Lemma site_eqb_refl site : site_eqb site site = true.
Proof. destruct site; simpl; auto using Nat.eqb_refl. Qed.

Lemma filter_out_site site (ts : list Timeout) :
  List.filter (fun t => site_eqb (t_site t) site)
    (List.filter (fun t => negb (site_eqb (t_site t) site)) ts) = [].
Proof.
  induction ts as [|t ts IH]; simpl; [reflexivity|].
  destruct (site_eqb (t_site t) site) eqn:Hsite; simpl; [assumption|].
  rewrite Hsite. assumption.
Qed.

(** Arming the timer of a call site leaves that site with one pending
    timer, the new one. *)
Lemma pending_debounce_send wait callback s :
  pending (site_of callback) (debounce_send wait callback s)
  = [mkTimeout (site_of callback) (clock s) wait callback].
Proof.
  unfold pending, debounce_send. simpl.
  rewrite List.filter_app, filter_out_site. simpl.
  rewrite site_eqb_refl. reflexivity.
Qed.

Lemma find_pending site s :
  List.find (fun t => site_eqb (t_site t) site) (timeouts s)
  = head (pending site s).
Proof.
  unfold pending. induction (timeouts s) as [|t ts IH]; simpl; [reflexivity|].
  destruct (site_eqb (t_site t) site); [reflexivity|assumption].
Qed.

(** A timer that is not due does not run. *)
Lemma timeout_fire_early site t s :
  head (pending site s) = Some t ->
  clock s < due t ->
  timeout_fire site s = s.
Proof.
  intros Hhead Hearly. unfold timeout_fire. rewrite find_pending, Hhead.
  destruct (Z.leb_spec (due t) (clock s)); [lia|reflexivity].
Qed.

(** A timer that is due issues one network call with the queue as it is
    then, and is no longer pending. *)
Lemma timeout_fire_due site t s :
  head (pending site s) = Some t ->
  due t <= clock s ->
  network (timeout_fire site s)
  = network s ++ [mkRequest (actionQueue s) (t_callback t)]
  /\ pending site (timeout_fire site s) = [].
Proof.
  intros Hhead Hdue. unfold timeout_fire. rewrite find_pending, Hhead.
  destruct (Z.leb_spec (due t) (clock s)); [|lia].
  split; [reflexivity|]. unfold pending. simpl. apply filter_out_site.
Qed.

(** What one [callMethod] does: one entry appended, the timer of the
    method-call site armed with the default window, nothing sent. *)
Lemma callMethod_effect methodName errCallback s :
  actionQueue (callMethod methodName errCallback s)
  = actionQueue s ++ [CallMethod methodName [] None]
  /\ pending SiteMethod (callMethod methodName errCallback s)
     = [mkTimeout SiteMethod (clock s) (Some 250)
                  (CallMethodCallback errCallback)]
  /\ network (callMethod methodName errCallback s) = network s
  /\ clock (callMethod methodName errCallback s) = clock s.
Proof.
  unfold callMethod, sendMessage. simpl. repeat split.
  exact (pending_debounce_send (Some 250) (CallMethodCallback errCallback)
           (push_action (CallMethod methodName [] None) s)).
Qed.

Lemma last_cons_default {A} (x d : A) (l : list A) :
  List.last (x :: l) d = List.last l x.
Proof.
  revert x d. induction l as [|y l IH]; intros x d; [reflexivity|].
  change (List.last (x :: y :: l) d) with (List.last (y :: l) d).
  rewrite (IH y d), (IH y x). reflexivity.
Qed.

(** A burst of calls, each within the window of the previous one, sends
    nothing and leaves one pending timer, armed by the last call. *)
Lemma method_calls_collapse calls : forall s first,
  within_window calls = true ->
  pending SiteMethod s = [mkTimeout SiteMethod (clock s) (Some 250) first] ->
  network (method_calls calls s) = network s
  /\ actionQueue (method_calls calls s) = actionQueue s ++ call_actions calls
  /\ pending SiteMethod (method_calls calls s)
     = [mkTimeout SiteMethod (clock (method_calls calls s)) (Some 250)
                  (last_callback calls first)].
Proof.
  induction calls as [|[[dt m] ecb] calls IH]; intros s first Hgaps Hpending.
  - simpl. rewrite app_nil_r. auto.
  - simpl in Hgaps. apply andb_true_iff in Hgaps as [Hgap Hgaps].
    apply andb_true_iff in Hgap as [Hlo%Z.leb_le Hhi%Z.ltb_lt].
    assert (Hidle : timeout_fire SiteMethod (advance dt s) = advance dt s).
    { apply (timeout_fire_early _
               (mkTimeout SiteMethod (clock s) (Some 250) first)).
      - unfold pending in *. simpl. rewrite Hpending. reflexivity.
      - unfold due, delay_ms. simpl. lia. }
    destruct (callMethod_effect m ecb (advance dt s))
      as (Hq & Hp & Hn & Hc).
    change (method_calls (((dt, m), ecb) :: calls) s)
      with (method_calls calls
              (callMethod m ecb (timeout_fire SiteMethod (advance dt s)))).
    rewrite Hidle.
    rewrite <- Hc in Hp.
    destruct (IH _ _ Hgaps Hp) as (IHn & IHq & IHp).
    rewrite IHn, IHq, IHp, Hn, Hq. repeat split.
    + simpl. rewrite <- app_assoc. reflexivity.
    + unfold last_callback. simpl map.
      rewrite last_cons_default. reflexivity.
Qed.

(** C7.  A dispatch with [debounceTime = -1] arms the timer of its call
    site with the fixed window of 250 ms and sends nothing at once, and
    [callMethod] always dispatches this way.  Hence a burst of method
    calls in which every call comes less than 250 ms after the previous
    one sends nothing while it lasts nor during the 250 ms after its last
    call; once that window has elapsed exactly one network call is
    issued, carrying the queue with the entries of all the calls. *)
Theorem C7_default_window_collapses_method_calls s m0 e0 calls :
  within_window calls = true ->
  let s1 := callMethod m0 e0 s in
  let s2 := method_calls calls s1 in
  let request :=
    mkRequest (actionQueue s ++ CallMethod m0 [] None :: call_actions calls)
              (last_callback calls (CallMethodCallback e0)) in
  (forall callback st,
      sendMessage (Some (-1)) callback st
      = debounce_send (Some 250) callback st
      /\ network (sendMessage (Some (-1)) callback st) = network st
      /\ pending (site_of callback) (sendMessage (Some (-1)) callback st)
         = [mkTimeout (site_of callback) (clock st) (Some 250) callback])
  /\ pending SiteMethod s1
     = [mkTimeout SiteMethod (clock s) (Some 250) (CallMethodCallback e0)]
  /\ network s2 = network s
  /\ (forall dt, 0 <= dt < 250 ->
        network (timeout_fire SiteMethod (advance dt s2)) = network s)
  /\ (forall dt, 250 <= dt ->
        network (timeout_fire SiteMethod (advance dt s2))
        = network s ++ [request]
        /\ pending SiteMethod (timeout_fire SiteMethod (advance dt s2)) = []).
Proof.
  intros Hgaps s1 s2 request.
  destruct (callMethod_effect m0 e0 s) as (Hq1 & Hp1 & Hn1 & Hc1).
  fold s1 in Hq1, Hp1, Hn1, Hc1.
  assert (Hp1' : pending SiteMethod s1
                 = [mkTimeout SiteMethod (clock s1) (Some 250)
                              (CallMethodCallback e0)])
    by (rewrite Hc1; exact Hp1).
  destruct (method_calls_collapse calls s1 _ Hgaps Hp1') as (Hn2 & Hq2 & Hp2).
  fold s2 in Hn2, Hq2, Hp2.
  split; [|split; [exact Hp1|split; [congruence|split]]].
  - intros callback st. repeat split.
    apply (pending_debounce_send (Some 250) callback st).
  - intros dt Hdt.
    rewrite (timeout_fire_early SiteMethod
               (mkTimeout SiteMethod (clock s2) (Some 250)
                          (last_callback calls (CallMethodCallback e0)))).
    + simpl. congruence.
    + unfold pending in *. simpl. rewrite Hp2. reflexivity.
    + unfold due, delay_ms. simpl. lia.
  - intros dt Hdt.
    destruct (timeout_fire_due SiteMethod
                (mkTimeout SiteMethod (clock s2) (Some 250)
                           (last_callback calls (CallMethodCallback e0)))
                (advance dt s2)) as (Hsent & Hnone).
    + unfold pending in *. simpl. rewrite Hp2. reflexivity.
    + unfold due, delay_ms. simpl. lia.
    + split; [|exact Hnone].
      rewrite Hsent. simpl. subst request.
      rewrite Hn2, Hn1, Hq2, Hq1, <- app_assoc. reflexivity.
Qed.

Lemma C7_default_window_collapses_method_calls_witness :
  network
    (timeout_fire SiteMethod
       (advance 250
          (method_calls [(100, "refresh", None); (100, "save", None)]
             (callMethod "refresh" None (new_component JNull 0)))))
  = [mkRequest [CallMethod "refresh" [] None; CallMethod "refresh" [] None;
                CallMethod "save" [] None]
               (CallMethodCallback None)].
Proof.
  exact (proj1 (proj2 (proj2 (proj2 (proj2
           (C7_default_window_collapses_method_calls
              (new_component JNull 0) "refresh" None
              [(100, "refresh", None); (100, "save", None)] eq_refl))))
           250 (Z.le_refl 250))).
Defined.

(** ** Scenarios *)

(** Paths through arrays and strings resolve as own properties too. *)
Example setValue_array_index :
  write_events
    (trace (setValue (model_input 1 "items.1.length" false false)
              (new_component
                 (JObj [("items", JArr [JStr "a"; JStr "bcd"])]) 0)))
  = [(1%nat, JNum 3)].
Proof. reflexivity. Qed.

(** A null level ends the traversal. *)
Example setValue_null_level :
  trace (setValue (model_input 1 "user.name" false false)
           (new_component (JObj [("user", JNull)]) 0))
  = [].
Proof. reflexivity. Qed.

(** A lazy field dispatches in the event that fires it: one entry is
    queued and the timer of its listener is armed with the default
    window. *)
Example lazy_input_dispatches :
  let s := modelListener (model_input 1 "bio" true false) (JStr "hello")
             (new_component JNull 0) in
  actionQueue s = [SyncInput "bio" (JStr "hello")]
  /\ timeouts s = [mkTimeout (SiteModel 1) 0 (Some 250) (ModelCallback 1)]
  /\ lastTriggeringElements s = [model_input 1 "bio" true false].
Proof. repeat split; reflexivity. Qed.

(** An action on an element flushes the lazy fields below it, without
    scanning the queue, and then calls the method. *)
Example action_flushes_lazy_fields :
  let walked := [action_button 1 "save"; model_input 2 "bio" true false] in
  let s := refreshEventListeners walked (new_component JNull 0) in
  let s' := actionListener "click" (action_button 1 "save") "" [2%nat]
              (fun _ => JStr "hello")
              (modelListener (model_input 2 "bio" true false) (JStr "hello") s) in
  actionQueue s'
  = [SyncInput "bio" (JStr "hello"); SyncInput "bio" (JStr "hello");
     CallMethod "save" [] None].
Proof. reflexivity. Qed.

(** Losing and regaining visibility: the interval is cleared, then
    polling starts again with an immediate call. *)
Example visibility_restarts_polling :
  let s0 := construct JNull (polling_root 0 "refresh" 5000) [] in
  let hidden := visibilityListener true s0 in
  let shown := visibilityListener false hidden in
  intervals hidden = []
  /\ intervals shown = [mkInterval 2 5000 "refresh" (HandleError None)]
  /\ actionQueue shown
     = [CallMethod "refresh" [] None; CallMethod "refresh" [] None].
Proof. repeat split; reflexivity. Qed.

(** * Further properties of the component *)

(** ** Splitting names *)

Lemma split_dot_nonempty s : split_dot s <> [].
Proof.
  destruct s as [|c rest]; simpl; [discriminate|].
  destruct (Ascii.eqb c "."); [discriminate|].
  destruct (split_dot rest); discriminate.
Qed.

Lemma split_dot_pieces_no_dot s :
  Forall (fun piece => contains_dot piece = false) (split_dot s).
Proof.
  induction s as [|c rest IH]; simpl.
  - repeat constructor.
  - destruct (Ascii.eqb c ".") eqn:Hc.
    + constructor; [reflexivity|assumption].
    + destruct (split_dot rest) as [|piece pieces].
      * repeat constructor. simpl. rewrite Hc. reflexivity.
      * inversion IH; subst. constructor; [|assumption].
        simpl. rewrite Hc. assumption.
Qed.


(** X1.  Splitting a name on ["."] loses nothing: joining the pieces
    with ["."] gives the name back, and no piece contains a dot. *)
Theorem split_dot_join s :
  String.concat "." (split_dot s) = s
  /\ Forall (fun piece => contains_dot piece = false) (split_dot s).
Proof.
  split; [|apply split_dot_pieces_no_dot].
  induction s as [|c rest IH]; simpl; [reflexivity|].
  destruct (Ascii.eqb_spec c "."%char) as [->|Hc].
  - pose proof (split_dot_nonempty rest).
    simpl. destruct (split_dot rest) as [|piece pieces]; [congruence|].
    simpl in *. rewrite IH. reflexivity.
  - pose proof (split_dot_nonempty rest).
    destruct (split_dot rest) as [|piece pieces]; [congruence|].
    destruct pieces as [|piece' pieces]; simpl in *; rewrite <- IH; reflexivity.
Qed.


(** Dotted names keep the segment before the last one. *)
Example derive_name_dotted :
  derive_name "app.templates.todo.html" = Some "todo".
Proof. reflexivity. Qed.

(** ** Merge engine: what [setValue] writes *)

Lemma setValue_loop_resolved element pieces : forall _data v s,
  pieces <> [] ->
  resolve pieces _data = Some v ->
  setValue_loop element pieces _data s = element_setValue element v s.
Proof.
  induction pieces as [|piece rest IH]; intros _data v s Hne Hres;
    [congruence|].
  simpl in Hres.
  assert (Hstep : hasOwnProperty _data piece = true
                  /\ resolve rest (get_prop _data piece) = Some v
                  /\ _data <> JNull).
  { destruct _data; try discriminate;
      (destruct (hasOwnProperty _ piece); [auto|discriminate]). }
  destruct Hstep as (Hown & Hrest & Hnull).
  assert (Hloop : setValue_loop element (piece :: rest) _data s
                  = match rest with
                    | [] => element_setValue element (get_prop _data piece) s
                    | _ :: _ =>
                        setValue_loop element rest (get_prop _data piece) s
                    end).
  { simpl. rewrite Hown. destruct _data; congruence. }
  rewrite Hloop. destruct rest as [|piece' rest'].
  - simpl in Hrest. congruence.
  - apply IH; [discriminate|assumption].
Qed.

(** X3.  When every segment of the model path is an own property of the
    level it is looked up in, [setValue] writes the value at the end of
    the path to the element, and does nothing else. *)
Theorem setValue_resolved_path element model v s :
  Element.model element = Some model ->
  resolve (split_dot (Model.name model)) (data s) = Some v ->
  setValue element s = element_setValue element v s.
Proof.
  intros Hmodel Hres. unfold setValue. rewrite Hmodel.
  apply setValue_loop_resolved; [apply split_dot_nonempty|assumption].
Qed.

Lemma setValue_resolved_path_witness :
  setValue (model_input 1 "user.address.city" false false)
    (new_component
       (JObj [("user", JObj [("address", JObj [("city", JStr "Lyon")])])]) 0)
  = element_setValue (model_input 1 "user.address.city" false false)
      (JStr "Lyon")
      (new_component
         (JObj [("user", JObj [("address", JObj [("city", JStr "Lyon")])])]) 0).
Proof.
  exact (setValue_resolved_path
           (model_input 1 "user.address.city" false false)
           (Model.mk "user.address.city" "input" (-1) false false)
           (JStr "Lyon")
           (new_component
              (JObj [("user",
                      JObj [("address", JObj [("city", JStr "Lyon")])])]) 0)
           eq_refl eq_refl).
Defined.

Lemma setValue_loop_one_write element pieces : forall _data s,
  setValue_loop element pieces _data s = s
  \/ exists v, setValue_loop element pieces _data s
               = element_setValue element v s.
Proof.
  induction pieces as [|piece rest IH]; intros _data s; [left; reflexivity|].
  assert (Hstep :
    (if hasOwnProperty _data piece
     then match rest with
          | [] => element_setValue element (get_prop _data piece) s
          | _ :: _ => setValue_loop element rest (get_prop _data piece) s
          end
     else setValue_loop element rest _data s) = s
    \/ exists v,
        (if hasOwnProperty _data piece
         then match rest with
              | [] => element_setValue element (get_prop _data piece) s
              | _ :: _ => setValue_loop element rest (get_prop _data piece) s
              end
         else setValue_loop element rest _data s)
        = element_setValue element v s).
  { destruct (hasOwnProperty _data piece); [|apply IH].
    destruct rest; [right; eauto|apply IH]. }
  simpl. destruct _data; auto.
Qed.

Lemma setValue_one_write element s :
  setValue element s = s
  \/ exists v, setValue element s = element_setValue element v s.
Proof.
  unfold setValue. destruct (Element.model element); [|left; reflexivity].
  apply setValue_loop_one_write.
Qed.

(** X4.  [setValue] performs at most one write, to its own element, and
    changes nothing else in the component: whatever the data and the
    path, the result is the state it was given or that state after one
    [element.setValue]. *)
Theorem setValue_at_most_one_write element s :
  setValue element s = s
  \/ exists v, setValue element s = element_setValue element v s.
Proof. apply setValue_one_write. Qed.

(** ** Merge engine: frames *)

Lemma set_trace_same s : set_trace (trace s) s = s.
Proof. destruct s; reflexivity. Qed.

Lemma only_trace_refl s : only_trace s s.
Proof. unfold only_trace. symmetry. apply set_trace_same. Qed.

Lemma only_trace_trans s1 s2 s3 :
  only_trace s1 s2 -> only_trace s2 s3 -> only_trace s1 s3.
Proof. unfold only_trace. intros H12 H23. rewrite H23, H12. reflexivity. Qed.

Lemma only_trace_emit e s : only_trace s (emit e s).
Proof. reflexivity. Qed.

Lemma only_trace_foldl {A} (f : State -> A -> State) (l : list A) :
  (forall s x, only_trace s (f s x)) ->
  forall s, only_trace s (foldl f s l).
Proof.
  intros Hf. induction l as [|x l IH]; intros s; simpl.
  - apply only_trace_refl.
  - eapply only_trace_trans; [apply Hf|apply IH].
Qed.

Lemma only_trace_setValue element s : only_trace s (setValue element s).
Proof.
  destruct (setValue_one_write element s) as [->|[v ->]].
  - apply only_trace_refl.
  - apply only_trace_emit.
Qed.

Lemma only_trace_focus_scan attr trigger els : forall focused s,
  only_trace s (snd (focus_scan attr trigger els (focused, s))).
Proof.
  intros focused s. rewrite focus_scan_first_match.
  destruct focused; [apply only_trace_refl|].
  destruct (first_match attr trigger els);
    [apply only_trace_emit|apply only_trace_refl].
Qed.

Lemma only_trace_restore_focus triggeringElements s :
  only_trace s (restore_focus triggeringElements s).
Proof.
  rewrite restore_focus_spec.
  destruct (spec_focus_target _ _);
    [apply only_trace_emit|apply only_trace_refl].
Qed.

Lemma only_trace_setModelValues triggeringElements s :
  only_trace s (setModelValues triggeringElements s).
Proof.
  unfold setModelValues.
  eapply only_trace_trans; [apply only_trace_restore_focus|].
  apply only_trace_foldl. intros s' element.
  destruct (_ || _); [apply only_trace_setValue|apply only_trace_refl].
Qed.

(** X5.  Merging model values only acts on the DOM: after
    [setModelValues] the component is as before (queue, triggering
    elements, registry, listeners, timers, requests), but for the focus
    and the writes logged. *)
Theorem setModelValues_only_trace triggeringElements s :
  only_trace s (setModelValues triggeringElements s)
  /\ actionQueue (setModelValues triggeringElements s) = actionQueue s
  /\ timeouts (setModelValues triggeringElements s) = timeouts s
  /\ modelEls (setModelValues triggeringElements s) = modelEls s.
Proof.
  pose proof (only_trace_setModelValues triggeringElements s) as H.
  split; [exact H|]. unfold only_trace in H. rewrite H. repeat split.
Qed.

(** ** Merge engine: which nodes are written *)

Lemma write_events_app t u :
  write_events (t ++ u) = write_events t ++ write_events u.
Proof. unfold write_events. apply flat_map_app. Qed.

Lemma writes_avoid_refl n s : writes_avoid n s s.
Proof. exists []. rewrite app_nil_r. split; [reflexivity|constructor]. Qed.

Lemma writes_avoid_trans n s1 s2 s3 :
  writes_avoid n s1 s2 -> writes_avoid n s2 s3 -> writes_avoid n s1 s3.
Proof.
  intros (w1 & H1 & Hw1) (w2 & H2 & Hw2). exists (w1 ++ w2).
  rewrite H2, H1, app_assoc. split; [reflexivity|].
  apply Forall_app; auto.
Qed.

Lemma writes_avoid_foldl {A} n (f : State -> A -> State) (l : list A) :
  (forall s x, writes_avoid n s (f s x)) ->
  forall s, writes_avoid n s (foldl f s l).
Proof.
  intros Hf. induction l as [|x l IH]; intros s; simpl.
  - apply writes_avoid_refl.
  - eapply writes_avoid_trans; [apply Hf|apply IH].
Qed.

Lemma writes_avoid_element_setValue n element v s :
  Element.el element <> n ->
  writes_avoid n s (element_setValue element v s).
Proof.
  intros Hne. exists [(Element.el element, v)]. simpl.
  rewrite write_events_app. split; [reflexivity|].
  constructor; [exact Hne|constructor].
Qed.

Lemma writes_avoid_setValue n element s :
  Element.el element <> n -> writes_avoid n s (setValue element s).
Proof.
  intros Hne. destruct (setValue_one_write element s) as [->|[v ->]].
  - apply writes_avoid_refl.
  - apply writes_avoid_element_setValue. exact Hne.
Qed.

Lemma writes_avoid_restore_focus n triggeringElements s :
  writes_avoid n s (restore_focus triggeringElements s).
Proof.
  rewrite restore_focus_spec. destruct (spec_focus_target _ _).
  - exists []. simpl. rewrite write_events_app, app_nil_r. simpl.
    rewrite app_nil_r. split; [reflexivity|constructor].
  - apply writes_avoid_refl.
Qed.

Lemma shouldSetValue_same_node element t ts :
  isSameNode (Element.el element) (Element.el t) = true ->
  forallb (fun t' => isSameNode (Element.el t') (Element.el t)) ts = true ->
  shouldSetValue element (t :: ts) = false.
Proof.
  intros Ht Hts. rewrite shouldSetValue_exists. simpl. rewrite Ht. simpl.
  apply Nat.eqb_eq in Ht.
  induction ts as [|t' ts IH]; simpl; [reflexivity|].
  simpl in Hts. apply andb_true_iff in Hts as [Ht' Hts].
  apply Nat.eqb_eq in Ht'.
  assert (Hsame : isSameNode (Element.el element) (Element.el t') = true)
    by (apply Nat.eqb_eq; congruence).
  rewrite Hsame. simpl. apply IH. exact Hts.
Qed.

(** X6.  When all the triggering elements are one node (a single
    trigger, or the same element recorded several times), that node is
    not written by [setModelValues]: every write it logs goes to another
    node. *)
Theorem setModelValues_spares_single_trigger t ts s :
  forallb (fun t' => isSameNode (Element.el t') (Element.el t)) ts = true ->
  writes_avoid (Element.el t) s (setModelValues (Some (t :: ts)) s).
Proof.
  intros Hts. unfold setModelValues. simpl default.
  eapply writes_avoid_trans; [apply writes_avoid_restore_focus|].
  apply writes_avoid_foldl. intros s' element.
  destruct (isSameNode (Element.el element) (Element.el t)) eqn:Hsame.
  - rewrite (shouldSetValue_same_node element t ts Hsame Hts). simpl.
    apply writes_avoid_refl.
  - apply Nat.eqb_neq in Hsame.
    destruct (_ || _); [|apply writes_avoid_refl].
    apply writes_avoid_setValue. exact Hsame.
Qed.

Lemma setModelValues_spares_single_trigger_witness :
  writes_avoid 1
    (refreshEventListeners
       [model_input 1 "a" false false; model_input 2 "b" false false]
       (new_component (JObj [("a", JNum 1); ("b", JNum 2)]) 0))
    (setModelValues
       (Some [model_input 1 "a" false false; model_input 1 "a" false false])
       (refreshEventListeners
          [model_input 1 "a" false false; model_input 2 "b" false false]
          (new_component (JObj [("a", JNum 1); ("b", JNum 2)]) 0))).
Proof.
  exact (setModelValues_spares_single_trigger
           (model_input 1 "a" false false) [model_input 1 "a" false false]
           (refreshEventListeners
              [model_input 1 "a" false false; model_input 2 "b" false false]
              (new_component (JObj [("a", JNum 1); ("b", JNum 2)]) 0))
           eq_refl).
Defined.

(** ** Merge engine: record values *)

Lemma foldl_fixed {A B} (f : A -> B -> A) (l : list B) (a : A) :
  (forall x, f a x = a) -> foldl f a l = a.
Proof.
  intros Hf. induction l as [|x l IH]; simpl; [reflexivity|].
  rewrite Hf. exact IH.
Qed.

Lemma setDbModelValues_none dbKey triggeringElements s :
  setDbModelValues dbKey triggeringElements None s = s.
Proof.
  unfold setDbModelValues. simpl.
  apply foldl_fixed; intros element;
    match goal with |- (if ?c then _ else _) = _ => destruct c end;
    reflexivity.
Qed.

(** X7.  Without record updates ([undefined], or an empty object)
    [setDbModelValues] changes nothing; this is how the model and method
    callbacks call it. *)
Theorem setDbModelValues_no_updates dbKey triggeringElements s :
  setDbModelValues dbKey triggeringElements None s = s
  /\ setDbModelValues dbKey triggeringElements (Some []) s = s.
Proof.
  split; [apply setDbModelValues_none|].
  unfold setDbModelValues. simpl.
  apply foldl_fixed; intros element;
    match goal with |- (if ?c then _ else _) = _ => destruct c end;
    reflexivity.
Qed.

Lemma writes_avoid_db_element dbKey n element dbUpdates s :
  Element.el element <> n ->
  writes_avoid n s
    (foldl (fun s '(key, updates) =>
              if String.eqb (dbKey element) key then
                foldl (fun s '(fieldName, v) =>
                         if strict_eq (Field.name <$> Element.field element)
                                      (Some fieldName)
                         then element_setValue element v s
                         else s)
                      s updates
              else s)
           s dbUpdates).
Proof.
  intros Hne. revert s. apply writes_avoid_foldl. intros s [key updates].
  destruct (String.eqb _ _); [|apply writes_avoid_refl].
  revert s. apply writes_avoid_foldl. intros s [fieldName v].
  destruct (strict_eq _ _); [|apply writes_avoid_refl].
  apply writes_avoid_element_setValue. exact Hne.
Qed.

(** X8.  [setDbModelValues] never writes to the node of the last
    triggering element: every write it logs goes to another node. *)
Theorem setDbModelValues_spares_last_trigger
    dbKey triggeringElements trigger dbUpdates s :
  last triggeringElements = Some trigger ->
  writes_avoid (Element.el trigger) s
    (setDbModelValues dbKey (Some triggeringElements) dbUpdates s).
Proof.
  intros Hlast. unfold setDbModelValues. simpl default. rewrite Hlast.
  apply writes_avoid_foldl. intros s' element.
  destruct (isSameNode (Element.el trigger) (Element.el element)) eqn:Hsame;
    simpl; [apply writes_avoid_refl|].
  apply Nat.eqb_neq in Hsame.
  apply writes_avoid_db_element. congruence.
Qed.

Lemma setDbModelValues_spares_last_trigger_witness :
  writes_avoid 2
    (refreshEventListeners
       [record_input 1 "book" "7" "title" false;
        record_input 2 "book" "7" "year" false]
       (new_component JNull 0))
    (setDbModelValues (fun _ => "book:7")
       (Some [record_input 1 "book" "7" "title" false;
              record_input 2 "book" "7" "year" false])
       (Some [("book:7", [("title", JStr "Dune"); ("year", JNum 1965)])])
       (refreshEventListeners
          [record_input 1 "book" "7" "title" false;
           record_input 2 "book" "7" "year" false]
          (new_component JNull 0))).
Proof.
  exact (setDbModelValues_spares_last_trigger (fun _ => "book:7")
           [record_input 1 "book" "7" "title" false;
            record_input 2 "book" "7" "year" false]
           (record_input 2 "book" "7" "year" false)
           (Some [("book:7", [("title", JStr "Dune"); ("year", JNum 1965)])])
           (refreshEventListeners
              [record_input 1 "book" "7" "title" false;
               record_input 2 "book" "7" "year" false]
              (new_component JNull 0))
           eq_refl).
Defined.

(** ** Completion callbacks *)

(** X9.  When the dispatch succeeds (no error), the callback of a model
    input and the callback of a method call do exactly what
    [setModelValues] does with the triggering elements: the record
    updates of the response are not used by them. *)
Theorem callbacks_on_success dbKey el errCallback triggeringElements
    dbUpdates err s :
  truthy err = false ->
  run_callback dbKey (ModelCallback el) triggeringElements dbUpdates err s
  = setModelValues triggeringElements s
  /\ run_callback dbKey (CallMethodCallback errCallback) triggeringElements
       dbUpdates err s
     = setModelValues triggeringElements s.
Proof.
  intros Herr. unfold run_callback. rewrite Herr.
  pose proof (setDbModelValues_none dbKey triggeringElements
                (setModelValues triggeringElements s)) as Hnone.
  split; [exact Hnone|]. destruct errCallback; exact Hnone.
Qed.

Lemma callbacks_on_success_witness :
  run_callback (fun _ => "") (ModelCallback 1)
    (Some [model_input 1 "a" false false])
    (Some [("book:7", [("title", JStr "Dune")])]) None
    (new_component JNull 0)
  = setModelValues (Some [model_input 1 "a" false false])
      (new_component JNull 0).
Proof.
  exact (proj1 (callbacks_on_success (fun _ => "") 1 None
                  (Some [model_input 1 "a" false false])
                  (Some [("book:7", [("title", JStr "Dune")])]) None
                  (new_component JNull 0) eq_refl)).
Defined.

(** X10.  A failed dispatch never touches the DOM or the queue: whatever
    the callback, an error is logged to the console and nothing is
    written, focused, queued or removed from the queue. *)
Theorem callbacks_on_error dbKey callback triggeringElements dbUpdates err s :
  truthy err = true ->
  let s' := run_callback dbKey callback triggeringElements dbUpdates err s in
  trace s' = trace s ++ [EConsoleError (default "" err)]
  /\ actionQueue s' = actionQueue s
  /\ lastTriggeringElements s' = lastTriggeringElements s.
Proof.
  intros Herr s'. subst s'. unfold run_callback.
  destruct callback as [el|el|[[timer]|]]; rewrite ?Herr.
  - repeat split.
  - repeat split.
  - unfold handleError. rewrite Herr. destruct timer; repeat split.
  - repeat split.
Qed.

Lemma callbacks_on_error_witness :
  trace (run_callback (fun _ => "") (ModelCallback 1)
           (Some [model_input 1 "a" false false]) None (Some "boom")
           (new_component (JObj [("a", JNum 1)]) 0))
  = [EConsoleError "boom"].
Proof.
  exact (proj1 (callbacks_on_error (fun _ => "") (ModelCallback 1)
                  (Some [model_input 1 "a" false false]) None (Some "boom")
                  (new_component (JObj [("a", JNum 1)]) 0) eq_refl)).
Defined.

(** ** Model inputs *)

Lemma overwrite_value_twice name v w a :
  overwrite_value name w (overwrite_value name v a) = overwrite_value name w a.
Proof.
  unfold overwrite_value. destruct (name_matches name a) eqn:Ha.
  - assert (Hkeep : name_matches name (set_payload_value v a) = true)
      by (destruct a; exact Ha).
    rewrite Hkeep. destruct a; reflexivity.
  - rewrite Ha. reflexivity.
Qed.

Lemma existsb_overwrite name v q :
  existsb (name_matches name) (map (overwrite_value name v) q)
  = existsb (name_matches name) q.
Proof.
  induction q as [|a q IH]; simpl; [reflexivity|]. rewrite IH. f_equal.
  unfold name_matches. rewrite overwrite_value_keeps_name. reflexivity.
Qed.

(** X11.  Deferred model inputs are last-write-wins on the whole
    component: entering [v] and then [w] in a deferred field leaves the
    component exactly as entering [w] alone would (same queue, same
    triggering elements, nothing dispatched). *)
Theorem deferred_input_last_write_wins name e v w s :
  is_deferred_on name e = true ->
  modelListener e w (modelListener e v s) = modelListener e w s.
Proof.
  intros (m & Hm & <- & Hd)%is_deferred_on_inv.
  unfold modelListener. rewrite Hm, Hd.
  destruct (existsb (name_matches (Model.name m)) (actionQueue s)) eqn:Hfound;
    simpl.
  - rewrite existsb_overwrite, Hfound. simpl.
    rewrite map_map.
    rewrite (map_ext _ (overwrite_value (Model.name m) w)
               (overwrite_value_twice (Model.name m) v w)).
    reflexivity.
  - rewrite !overwrite_no_match by assumption.
    rewrite existsb_app. simpl. rewrite name_matches_sync, orb_true_r. simpl.
    rewrite map_app, overwrite_no_match by assumption. simpl.
    unfold overwrite_value. rewrite name_matches_sync. reflexivity.
Qed.

Lemma deferred_input_last_write_wins_witness :
  modelListener (model_input 1 "bio" false true) (JStr "ab")
    (modelListener (model_input 1 "bio" false true) (JStr "a")
       (new_component JNull 0))
  = modelListener (model_input 1 "bio" false true) (JStr "ab")
      (new_component JNull 0).
Proof.
  exact (deferred_input_last_write_wins "bio"
           (model_input 1 "bio" false true) (JStr "a") (JStr "ab")
           (new_component JNull 0) eq_refl).
Defined.

Lemma modelListener_deferred_frame e v s :
  is_deferred e = true ->
  timeouts (modelListener e v s) = timeouts s
  /\ network (modelListener e v s) = network s
  /\ trace (modelListener e v s) = trace s.
Proof.
  unfold is_deferred, modelListener.
  destruct (Element.model e) as [m|]; [|discriminate]. intros ->.
  destruct (existsb _ _); repeat split.
Qed.

(** X12.  Deferred inputs never dispatch: after any sequence of inputs on
    deferred fields no debounce timer has been armed, no request sent and
    no effect logged. *)
Theorem deferred_inputs_never_dispatch evs : forall s,
  forallb (fun ev => is_deferred (fst ev)) evs = true ->
  timeouts (model_events evs s) = timeouts s
  /\ network (model_events evs s) = network s
  /\ trace (model_events evs s) = trace s.
Proof.
  induction evs as [|[e v] evs IH]; intros s Hevs; [repeat split|].
  simpl in Hevs. apply andb_true_iff in Hevs as [He Hevs].
  destruct (modelListener_deferred_frame e v s He) as (Ht & Hn & Htr).
  destruct (IH (modelListener e v s) Hevs) as (IHt & IHn & IHtr).
  change (model_events ((e, v) :: evs) s)
    with (model_events evs (modelListener e v s)).
  rewrite IHt, IHn, IHtr. auto.
Qed.

Lemma deferred_inputs_never_dispatch_witness :
  timeouts
    (model_events [(model_input 1 "bio" false true, JStr "a");
                   (model_input 2 "name" false true, JStr "b")]
                  (new_component JNull 0))
  = [].
Proof.
  exact (proj1 (deferred_inputs_never_dispatch
                  [(model_input 1 "bio" false true, JStr "a");
                   (model_input 2 "name" false true, JStr "b")]
                  (new_component JNull 0) eq_refl)).
Defined.

Lemma modelListener_plain e v s :
  is_plain e = true ->
  exists a, sync_action (e, v) = Some a
            /\ actionQueue (modelListener e v s) = actionQueue s ++ [a]
            /\ lastTriggeringElements (modelListener e v s)
               = lastTriggeringElements s ++ [e].
Proof.
  unfold is_plain, sync_action, modelListener. simpl.
  destruct (Element.model e) as [m|]; [|discriminate].
  intros Hd%negb_true_iff. rewrite Hd.
  eexists. split; [reflexivity|].
  unfold sendMessage. destruct (is_minus_one _); split; reflexivity.
Qed.

(** X13.  Inputs on fields that are not deferred are queued one by one in
    firing order, whatever the queue holds: after a sequence of such
    inputs the queue is the old queue followed by one [syncInput] entry
    per input, and every element has been recorded as triggering. *)
Theorem plain_inputs_append_in_order evs : forall s,
  forallb (fun ev => is_plain (fst ev)) evs = true ->
  actionQueue (model_events evs s) = actionQueue s ++ omap sync_action evs
  /\ length (omap sync_action evs) = length evs
  /\ lastTriggeringElements (model_events evs s)
     = lastTriggeringElements s ++ map fst evs.
Proof.
  induction evs as [|[e v] evs IH]; intros s Hevs.
  - simpl. rewrite !app_nil_r. auto.
  - simpl in Hevs. apply andb_true_iff in Hevs as [He Hevs].
    destruct (modelListener_plain e v s He) as (a & Ha & Hq & Ht).
    destruct (IH (modelListener e v s) Hevs) as (IHq & IHl & IHt).
    change (model_events ((e, v) :: evs) s)
      with (model_events evs (modelListener e v s)).
    rewrite IHq, IHt, Hq, Ht.
    change (omap sync_action ((e, v) :: evs))
      with (match sync_action (e, v) with
            | Some a => a :: omap sync_action evs
            | None => omap sync_action evs
            end).
    rewrite Ha. simpl. rewrite IHl, <- !app_assoc. auto.
Qed.

Lemma plain_inputs_append_in_order_witness :
  actionQueue
    (model_events [(model_input 1 "bio" false false, JStr "a");
                   (model_input 1 "bio" false false, JStr "ab")]
                  (callMethod "save" None (new_component JNull 0)))
  = [CallMethod "save" [] None]
      ++ omap sync_action [(model_input 1 "bio" false false, JStr "a");
                           (model_input 1 "bio" false false, JStr "ab")].
Proof.
  exact (proj1 (plain_inputs_append_in_order
                  [(model_input 1 "bio" false false, JStr "a");
                   (model_input 1 "bio" false false, JStr "ab")]
                  (callMethod "save" None (new_component JNull 0)) eq_refl)).
Defined.

(** ** Record inputs *)

Lemma dbListener_rejected e v s :
  accepted_record e = false -> dbListener e v s = s.
Proof.
  unfold accepted_record, dbListener. intros Hacc.
  rewrite <- negb_andb, Hacc. reflexivity.
Qed.

(** X14.  A record input on an element whose record type or primary key
    is missing or empty is ignored altogether: any sequence of such
    inputs leaves the component as it was. *)
Theorem record_inputs_without_key_ignored evs : forall s,
  forallb (fun ev => negb (accepted_record (fst ev))) evs = true ->
  db_events evs s = s.
Proof.
  induction evs as [|[e v] evs IH]; intros s Hevs; [reflexivity|].
  simpl in Hevs. apply andb_true_iff in Hevs as [He%negb_true_iff Hevs].
  change (db_events ((e, v) :: evs) s) with (db_events evs (dbListener e v s)).
  rewrite (dbListener_rejected e v s He). apply IH. exact Hevs.
Qed.

Lemma record_inputs_without_key_ignored_witness :
  db_events
    [(Element.mk 1 true None (Db.mk (Some "book") None)
        (Some (Field.mk "title" "input" false)) [] None None None, JStr "x");
     (Element.mk 2 true None (Db.mk (Some "") (Some "7"))
        (Some (Field.mk "year" "input" true)) [] None None None, JNum 1)]
    (new_component JNull 0)
  = new_component JNull 0.
Proof.
  exact (record_inputs_without_key_ignored
           [(Element.mk 1 true None (Db.mk (Some "book") None)
               (Some (Field.mk "title" "input" false)) [] None None None,
             JStr "x");
            (Element.mk 2 true None (Db.mk (Some "") (Some "7"))
               (Some (Field.mk "year" "input" true)) [] None None None,
             JNum 1)]
           (new_component JNull 0) eq_refl).
Defined.

Lemma dbListener_triggering e v s :
  lastTriggeringElements (dbListener e v s)
  = lastTriggeringElements s ++ (if accepted_record e then [e] else []).
Proof.
  destruct (accepted_record e) eqn:Hacc.
  - unfold accepted_record in Hacc. apply andb_true_iff in Hacc as [Hn Hp].
    unfold dbListener. rewrite Hn, Hp. simpl.
    destruct (field_isDefer e); [destruct (existsb _ _)|];
      unfold sendMessage; try destruct (is_minus_one _); reflexivity.
  - rewrite (dbListener_rejected e v s Hacc), app_nil_r. reflexivity.
Qed.

(** X15.  Every record input that passes the guard records its element
    as triggering, deferred or not, coalesced or not: after a sequence of
    record inputs the triggering elements are the old ones followed by
    the elements of the accepted inputs, in firing order. *)
Theorem record_inputs_record_triggering evs : forall s,
  lastTriggeringElements (db_events evs s)
  = lastTriggeringElements s
      ++ map fst (List.filter (fun ev => accepted_record (fst ev)) evs).
Proof.
  induction evs as [|[e v] evs IH]; intros s.
  - simpl. rewrite app_nil_r. reflexivity.
  - change (db_events ((e, v) :: evs) s)
      with (db_events evs (dbListener e v s)).
    rewrite IH, dbListener_triggering. simpl.
    destruct (accepted_record e); simpl; rewrite <- app_assoc; reflexivity.
Qed.

Lemma existsb_merge db pk k v q :
  existsb (record_matches db pk)
    (map (fun a => if record_matches db pk a then set_payload_field k v a
                   else a) q)
  = existsb (record_matches db pk) q.
Proof.
  induction q as [|a q IH]; simpl; [reflexivity|]. rewrite IH. f_equal.
  destruct (record_matches db pk a) eqn:Ha; [|exact Ha].
  destruct a; exact Ha.
Qed.

Lemma coalesce_dbInput_twice db pk k v w q :
  coalesce_dbInput db pk k w (coalesce_dbInput db pk k v q)
  = coalesce_dbInput db pk k w q.
Proof.
  unfold coalesce_dbInput at 2 3.
  destruct (existsb (record_matches (Some db) (Some pk)) q) eqn:Hfound.
  - unfold coalesce_dbInput. rewrite existsb_merge, Hfound, map_map.
    apply map_ext. intros a.
    destruct (record_matches (Some db) (Some pk) a) eqn:Ha.
    + assert (Hkeep : record_matches (Some db) (Some pk)
                        (set_payload_field k v a) = true)
        by (destruct a; exact Ha).
      rewrite Hkeep. destruct a; simpl; try reflexivity.
      rewrite insert_insert_eq. reflexivity.
    + rewrite Ha. reflexivity.
  - rewrite coalesce_dbInput_again by assumption.
    rewrite insert_singleton_eq. reflexivity.
Qed.

(** X16.  Deferred record inputs are last-write-wins per field on the
    queue: entering [v] and then [w] in a deferred record field leaves
    the queue exactly as entering [w] alone would. *)
Theorem deferred_record_input_last_write_wins db pk e v w s :
  is_deferred_record db pk e = true ->
  actionQueue (dbListener e w (dbListener e v s))
  = actionQueue (dbListener e w s).
Proof.
  intros He. rewrite !(dbListener_deferred db pk) by assumption.
  apply coalesce_dbInput_twice.
Qed.

Lemma deferred_record_input_last_write_wins_witness :
  actionQueue
    (dbListener (record_input 1 "book" "7" "title" true) (JStr "Dune II")
       (dbListener (record_input 1 "book" "7" "title" true) (JStr "Dune")
          (new_component JNull 0)))
  = actionQueue
      (dbListener (record_input 1 "book" "7" "title" true) (JStr "Dune II")
         (new_component JNull 0)).
Proof.
  exact (deferred_record_input_last_write_wins "book" "7"
           (record_input 1 "book" "7" "title" true) (JStr "Dune")
           (JStr "Dune II") (new_component JNull 0) eq_refl).
Defined.

(** ** The delegated action listener *)

Lemma fold_other_elements target
    (body : State -> ActionBinding.t * Element -> State) bindings :
  (forall s ae,
      isSameNode (Element.el target) (Element.el (snd ae)) = false ->
      body s ae = s) ->
  existsb (fun ae => isSameNode (Element.el target) (Element.el (snd ae)))
          bindings = false ->
  forall s, foldl body s bindings = s.
Proof.
  intros Hbody. induction bindings as [|ae bindings IH]; intros Hnone s;
    [reflexivity|].
  simpl in Hnone. apply orb_false_iff in Hnone as [Hae Hrest].
  simpl. rewrite (Hbody s ae Hae). apply IH. exact Hrest.
Qed.

(** X17.  An event whose target carries none of the action bindings
    registered for its type does nothing at all: the delegated listener
    matches bindings by node identity, and bindings of other elements
    (of this or of another component) never fire. *)
Theorem action_on_other_element_ignored
    eventType target key descendants getValue s :
  registered_for eventType (Element.el target) s = false ->
  actionListener eventType target key descendants getValue s = s.
Proof.
  unfold registered_for, actionListener. intros Hreg.
  destruct (Element.isUnicorn target && _); [|reflexivity].
  destruct (actionEvents s !! eventType) as [bindings|]; [|reflexivity].
  apply (fold_other_elements target); [|exact Hreg].
  intros s' [action element] Hother. simpl in Hother. rewrite Hother.
  reflexivity.
Qed.

Lemma action_on_other_element_ignored_witness :
  actionListener "click" (action_button 3 "delete") "" [] (fun _ => JNull)
    (refreshEventListeners
       [action_button 1 "save"; model_input 2 "bio" true false]
       (new_component JNull 0))
  = refreshEventListeners
      [action_button 1 "save"; model_input 2 "bio" true false]
      (new_component JNull 0).
Proof.
  exact (action_on_other_element_ignored "click" (action_button 3 "delete")
           "" [] (fun _ => JNull)
           (refreshEventListeners
              [action_button 1 "save"; model_input 2 "bio" true false]
              (new_component JNull 0))
           eq_refl).
Defined.

Lemma count_calls_app q1 q2 :
  count_calls (q1 ++ q2) = (count_calls q1 + count_calls q2)%nat.
Proof. unfold count_calls. rewrite List.filter_app, length_app. reflexivity. Qed.

Lemma appends_refl s : appends 0 s s.
Proof.
  split; [|repeat split]. exists []. rewrite app_nil_r. split; reflexivity.
Qed.

Lemma appends_trans n m s1 s2 s3 :
  appends n s1 s2 -> appends m s2 s3 -> appends (n + m) s1 s3.
Proof.
  intros [(a1 & Hq1 & Hn1) (H1a & H1b & H1c & H1d & H1e & H1f)]
         [(a2 & Hq2 & Hn2) (H2a & H2b & H2c & H2d & H2e & H2f)].
  split; [|repeat split; congruence].
  exists (a1 ++ a2). rewrite Hq2, Hq1, app_assoc, count_calls_app.
  split; [reflexivity|lia].
Qed.

Lemma appends_foldl {A} (f : State -> A -> State) (l : list A) :
  (forall s x, appends 0 s (f s x)) ->
  forall s, appends 0 s (foldl f s l).
Proof.
  intros Hf. induction l as [|x l IH]; intros s; simpl.
  - apply appends_refl.
  - apply (appends_trans 0 0 s (f s x)); [apply Hf|apply IH].
Qed.

Lemma appends_push a s :
  appends (count_calls [a]) s (push_action a s).
Proof. split; [|repeat split]. exists [a]. split; reflexivity. Qed.

Lemma appends_emit e s : appends 0 s (emit e s).
Proof. split; [|repeat split]. exists []. rewrite app_nil_r. split; reflexivity. Qed.

Lemma appends_callMethod methodName errCallback s :
  appends 1 s (callMethod methodName errCallback s).
Proof.
  split; [|repeat split].
  exists [CallMethod methodName [] None]. split; reflexivity.
Qed.

Lemma appends_flush_lazy getValue childEl s :
  appends 0 s (flush_lazy getValue childEl s).
Proof.
  unfold flush_lazy.
  apply (appends_trans 0 0 s
           (foldl (fun s modelElement =>
                     match Element.model modelElement with
                     | Some model =>
                         if Model.isLazy model then
                           push_action
                             (SyncInput (Model.name model)
                                        (getValue modelElement)) s
                         else s
                     | None => s
                     end)
                  s (List.filter (fun e => isSameNode (Element.el e) childEl)
                                 (modelEls s)))).
  - apply appends_foldl. intros s' e.
    destruct (Element.model e) as [m|]; [|apply appends_refl].
    destruct (Model.isLazy m); [|apply appends_refl].
    apply (appends_push (SyncInput _ _)).
  - apply appends_foldl. intros s' e.
    destruct (Element.model e) as [m|]; [|apply appends_refl].
    destruct (Model.isLazy m); [|apply appends_refl].
    apply (appends_push (DbInput _ _ _)).
Qed.

(** One registered binding, as the delegated listener handles it. *)
Lemma appends_binding target key descendants getValue s ae :
  appends (if binding_fires target key ae then 1 else 0) s
    ((fun s '(action, element) =>
        if isSameNode (Element.el target) (Element.el element) then
          let s := foldl (fun s childEl => flush_lazy getValue childEl s)
                         s descendants in
          let s := if ActionBinding.isPrevent action
                   then emit EPreventDefault s else s in
          let s := if ActionBinding.isStop action
                   then emit EStopPropagation s else s in
          if truthy (ActionBinding.key action) then
            if strict_eq (ActionBinding.key action) (Some key) then
              callMethod (ActionBinding.name action) None s
            else s
          else
            callMethod (ActionBinding.name action) None s
        else s) s ae).
Proof.
  destruct ae as [action element]. unfold binding_fires. simpl.
  destruct (isSameNode (Element.el target) (Element.el element)); simpl;
    [|apply appends_refl].
  set (s1 := foldl (fun s childEl => flush_lazy getValue childEl s)
                   s descendants).
  set (s2 := if ActionBinding.isPrevent action
             then emit EPreventDefault s1 else s1).
  set (s3 := if ActionBinding.isStop action
             then emit EStopPropagation s2 else s2).
  assert (H1 : appends 0 s s1)
    by (apply appends_foldl; intros; apply appends_flush_lazy).
  assert (H2 : appends 0 s1 s2)
    by (subst s2; destruct (ActionBinding.isPrevent action);
        [apply appends_emit|apply appends_refl]).
  assert (H3 : appends 0 s2 s3)
    by (subst s3; destruct (ActionBinding.isStop action);
        [apply appends_emit|apply appends_refl]).
  pose proof (appends_trans _ _ _ _ _ (appends_trans _ _ _ _ _ H1 H2) H3)
    as H03. simpl in H03.
  destruct (truthy (ActionBinding.key action));
    [destruct (strict_eq (ActionBinding.key action) (Some key))|].
  - apply (appends_trans 0 1 s s3); [exact H03|apply appends_callMethod].
  - exact H03.
  - apply (appends_trans 0 1 s s3); [exact H03|apply appends_callMethod].
Qed.

Lemma actionListener_appends_bindings
    eventType target key descendants getValue bindings s :
  Element.isUnicorn target = true ->
  (0 <? length (Element.actions target))%nat = true ->
  actionEvents s !! eventType = Some bindings ->
  appends (length (List.filter (binding_fires target key) bindings)) s
          (actionListener eventType target key descendants getValue s).
Proof.
  intros Hu Ha Hb. unfold actionListener. rewrite Hu, Ha, Hb. simpl.
  clear Hb. revert s.
  induction bindings as [|ae bindings IH]; intros s; [apply appends_refl|].
  simpl foldl.
  pose proof (appends_binding target key descendants getValue s ae) as Hae.
  simpl List.filter.
  destruct (binding_fires target key ae); simpl length.
  - eapply (appends_trans 1 _ s); [exact Hae|apply IH].
  - eapply (appends_trans 0 _ s); [exact Hae|apply IH].
Qed.


(** X18.  The delegated action listener only appends to the queue, and
    calls one method per binding that fires: for an event on a unicorn
    element with actions, the entries already queued are kept as they
    are, the number of [callMethod] entries added is the number of
    bindings registered for the event type that sit on the target node
    and whose key filter (if any) is the key pressed, and neither the
    registry, the listeners, the attached event types nor the triggering
    elements change. *)
Theorem actionListener_appends
    eventType target key descendants getValue bindings s :
  Element.isUnicorn target = true ->
  (0 <? length (Element.actions target))%nat = true ->
  actionEvents s !! eventType = Some bindings ->
  appends (length (List.filter (binding_fires target key) bindings)) s
          (actionListener eventType target key descendants getValue s).
Proof. apply actionListener_appends_bindings. Qed.

Lemma actionListener_appends_witness :
  appends 1
    (refreshEventListeners
       [action_button 1 "save"; model_input 2 "bio" true false]
       (new_component JNull 0))
    (actionListener "click" (action_button 1 "save") "" [2%nat]
       (fun _ => JStr "hello")
       (refreshEventListeners
          [action_button 1 "save"; model_input 2 "bio" true false]
          (new_component JNull 0))).
Proof.
  exact (actionListener_appends "click" (action_button 1 "save") ""
           [2%nat] (fun _ => JStr "hello")
           [(ActionBinding.mk "save" "click" None false false,
             action_button 1 "save")]
           (refreshEventListeners
              [action_button 1 "save"; model_input 2 "bio" true false]
              (new_component JNull 0))
           eq_refl eq_refl eq_refl).
Defined.

(** ** Event listener registry: the bound elements *)

Lemma register_action_frame element s action :
  root (register_action element s action) = root s
  /\ modelEls (register_action element s action) = modelEls s
  /\ dbEls (register_action element s action) = dbEls s.
Proof.
  unfold register_action.
  destruct (actionEvents s !! _); [repeat split|].
  simpl. destruct (_ =? _)%nat; repeat split.
Qed.

Lemma register_actions_frame element actions : forall s,
  root (foldl (register_action element) s actions) = root s
  /\ modelEls (foldl (register_action element) s actions) = modelEls s
  /\ dbEls (foldl (register_action element) s actions) = dbEls s.
Proof.
  induction actions as [|a actions IH]; intros s; [repeat split|].
  simpl. destruct (IH (register_action element s a)) as (Hr & Hm & Hd).
  destruct (register_action_frame element s a) as (Hr' & Hm' & Hd').
  rewrite Hr, Hm, Hd. auto.
Qed.

Lemma not_bound_seen element els :
  not_bound element els
  = negb (existsb (Nat.eqb (Element.el element)) (map Element.el els)).
Proof.
  unfold not_bound. induction els as [|e els IH]; [reflexivity|].
  simpl. unfold isSameNode at 1. rewrite (Nat.eqb_sym (Element.el element)).
  destruct (Element.el e =? Element.el element)%nat; simpl; [reflexivity|].
  exact IH.
Qed.

Lemma register_element_bound s element :
  root (register_element s element) = root s
  /\ modelEls (register_element s element)
     = modelEls s
         ++ (if binds_model (root s) element
                && not_bound element (modelEls s)
             then [element] else [])
  /\ dbEls (register_element s element)
     = dbEls s
         ++ (if binds_record (root s) element
                && not_bound element (dbEls s)
             then [element] else []).
Proof.
  unfold register_element, binds_model, binds_record.
  destruct (isSameNode (Element.el element) (root s)); simpl;
    [rewrite !app_nil_r; auto|].
  destruct (Element.isUnicorn element); simpl; [|rewrite !app_nil_r; auto].
  match goal with
  | |- context [foldl (register_action element) ?t _] =>
      destruct (register_actions_frame element (Element.actions element) t)
        as (Hr & Hm & Hd)
  end.
  rewrite Hr, Hm, Hd. clear Hr Hm Hd.
  destruct (Element.model element) as [model|],
           (Element.field element) as [field|]; simpl;
    try destruct (db_isEmpty (Element.db element)); simpl;
    try destruct (not_bound element (modelEls s)); simpl;
    try destruct (not_bound element (dbEls s)); simpl;
    rewrite ?app_nil_r; auto.
Qed.

Lemma rebuild_fold_bound walked : forall s,
  root (foldl register_element s walked) = root s
  /\ modelEls (foldl register_element s walked)
     = modelEls s
         ++ first_by_node (map Element.el (modelEls s))
                          (List.filter (binds_model (root s)) walked)
  /\ dbEls (foldl register_element s walked)
     = dbEls s
         ++ first_by_node (map Element.el (dbEls s))
                          (List.filter (binds_record (root s)) walked).
Proof.
  induction walked as [|e walked IH]; intros s.
  - simpl. rewrite !app_nil_r. auto.
  - simpl foldl.
    destruct (IH (register_element s e)) as (IHr & IHm & IHd).
    destruct (register_element_bound s e) as (Hr & Hm & Hd).
    rewrite IHr, IHm, IHd, Hr, Hm, Hd. clear IHr IHm IHd Hr Hm Hd.
    split; [reflexivity|]. rewrite !not_bound_seen. simpl List.filter. split.
    + destruct (binds_model (root s) e); simpl.
      * destruct (existsb (Nat.eqb (Element.el e))
                          (map Element.el (modelEls s))); simpl.
        -- rewrite app_nil_r. reflexivity.
        -- rewrite map_app, <- app_assoc. reflexivity.
      * rewrite app_nil_r. reflexivity.
    + destruct (binds_record (root s) e); simpl.
      * destruct (existsb (Nat.eqb (Element.el e))
                          (map Element.el (dbEls s))); simpl.
        -- rewrite app_nil_r. reflexivity.
        -- rewrite map_app, <- app_assoc. reflexivity.
      * rewrite app_nil_r. reflexivity.
Qed.



(** ** Event listener registry: the action table *)

Lemma register_action_events element s action :
  actionEvents (register_action element s action)
  = add_binding element (actionEvents s) action.
Proof.
  unfold register_action, add_binding.
  destruct (actionEvents s !! _); [reflexivity|].
  simpl. destruct (_ =? _)%nat; reflexivity.
Qed.

Lemma register_actions_events element actions : forall s,
  actionEvents (foldl (register_action element) s actions)
  = foldl (add_binding element) (actionEvents s) actions.
Proof.
  induction actions as [|a actions IH]; intros s; [reflexivity|].
  simpl. rewrite IH, register_action_events. reflexivity.
Qed.

Lemma register_element_events s element :
  actionEvents (register_element s element)
  = if registers_actions (root s) element
    then foldl (add_binding element) (actionEvents s) (Element.actions element)
    else actionEvents s.
Proof.
  unfold register_element, registers_actions.
  destruct (isSameNode (Element.el element) (root s)); [reflexivity|].
  destruct (Element.isUnicorn element); [|reflexivity]. simpl.
  rewrite register_actions_events.
  destruct (Element.model element), (Element.field element); simpl;
    try destruct (db_isEmpty (Element.db element)); simpl;
    try destruct (not_bound element (modelEls s)); simpl;
    try destruct (not_bound element (dbEls s)); reflexivity.
Qed.

Lemma extend_entry_app o l1 l2 :
  extend_entry (extend_entry o l1) l2 = extend_entry o (l1 ++ l2).
Proof.
  destruct l1 as [|x l1]; [reflexivity|].
  destruct l2 as [|y l2]; simpl.
  - rewrite app_nil_r. reflexivity.
  - rewrite <- app_assoc. reflexivity.
Qed.

Lemma add_binding_lookup element m action eventType :
  add_binding element m action !! eventType
  = extend_entry (m !! eventType)
      (if String.eqb (ActionBinding.eventType action) eventType
       then [(action, element)] else []).
Proof.
  unfold add_binding.
  destruct (String.eqb_spec (ActionBinding.eventType action) eventType)
    as [<-|Hne].
  - destruct (m !! ActionBinding.eventType action) as [registered|] eqn:Hm;
      rewrite lookup_insert_eq; reflexivity.
  - destruct (m !! ActionBinding.eventType action);
      rewrite lookup_insert_ne by assumption; reflexivity.
Qed.

Lemma add_bindings_lookup element actions eventType : forall m,
  foldl (add_binding element) m actions !! eventType
  = extend_entry (m !! eventType)
      (map (fun a => (a, element))
           (List.filter
              (fun a => String.eqb (ActionBinding.eventType a) eventType)
              actions)).
Proof.
  induction actions as [|a actions IH]; intros m; [reflexivity|].
  simpl foldl. rewrite IH, add_binding_lookup, extend_entry_app.
  simpl List.filter.
  destruct (String.eqb (ActionBinding.eventType a) eventType); reflexivity.
Qed.

Lemma rebuild_fold_events walked eventType : forall s,
  actionEvents (foldl register_element s walked) !! eventType
  = extend_entry (actionEvents s !! eventType)
                 (bindings_of (root s) eventType walked).
Proof.
  induction walked as [|e walked IH]; intros s; [reflexivity|].
  simpl foldl. rewrite IH.
  destruct (register_element_bound s e) as (Hr & _). rewrite Hr.
  rewrite register_element_events.
  unfold bindings_of at 2. simpl flat_map. fold (bindings_of (root s) eventType walked).
  destruct (registers_actions (root s) e); [|reflexivity].
  rewrite add_bindings_lookup, extend_entry_app. reflexivity.
Qed.

Lemma rebuild_events_lookup walked s eventType :
  actionEvents (refreshEventListeners walked s) !! eventType
  = extend_entry None (bindings_of (root s) eventType walked).
Proof.
  unfold refreshEventListeners. rewrite rebuild_fold_events. reflexivity.
Qed.


(** X21.  A rebuild forgets the registry it finds: the bound elements
    and the action table after a rebuild depend on the markup walked
    only, so rebuilding twice over the same markup gives the same tables
    as rebuilding once. *)
Theorem rebuild_forgets_registry walked walked' s :
  let once := refreshEventListeners walked s in
  let again := refreshEventListeners walked (refreshEventListeners walked' s) in
  modelEls again = modelEls once
  /\ dbEls again = dbEls once
  /\ actionEvents again = actionEvents once.
Proof.
  intros once again. subst once again.
  assert (Hroot : root (refreshEventListeners walked' s) = root s).
  { unfold refreshEventListeners.
    destruct (rebuild_fold_bound walked'
                (set_dbEls [] (set_modelEls [] (set_actionEvents ∅ s))))
      as (Hr & _). exact Hr. }
  assert (Hbound : forall t,
             modelEls (refreshEventListeners walked t)
             = first_by_node [] (List.filter (binds_model (root t)) walked)
             /\ dbEls (refreshEventListeners walked t)
                = first_by_node [] (List.filter (binds_record (root t)) walked)).
  { intros t. unfold refreshEventListeners.
    destruct (rebuild_fold_bound walked
                (set_dbEls [] (set_modelEls [] (set_actionEvents ∅ t))))
      as (_ & Hm & Hd). split; assumption. }
  destruct (Hbound s) as [Hm1 Hd1].
  destruct (Hbound (refreshEventListeners walked' s)) as [Hm2 Hd2].
  rewrite Hm1, Hd1, Hm2, Hd2, Hroot. repeat split.
  apply map_eq. intros eventType.
  rewrite !rebuild_events_lookup, Hroot. reflexivity.
Qed.

(** ** Histories: what every method leaves alone *)

Lemma keeps_refl s : keeps s s.
Proof. keeps_fields. Qed.

Lemma keeps_trans s1 s2 s3 : keeps s1 s2 -> keeps s2 s3 -> keeps s1 s3.
Proof.
  intros (Ha1 & Hb1 & Hc1) (Ha2 & Hb2 & Hc2).
  repeat split; [congruence|congruence|lia].
Qed.

Lemma keeps_only_trace s s' : only_trace s s' -> keeps s s'.
Proof. unfold only_trace. intros ->. keeps_fields. Qed.

Lemma keeps_appends n s s' : appends n s s' -> keeps s s'.
Proof.
  intros [(added & Hq & _) (_ & _ & _ & Hl & _ & Ha)].
  repeat split; [congruence|exact Ha|].
  rewrite Hq, length_app. lia.
Qed.

Lemma keeps_sendMessage debounceTime callback s :
  keeps s (sendMessage debounceTime callback s).
Proof. unfold sendMessage. destruct (is_minus_one _); keeps_fields. Qed.

Lemma keeps_callMethod methodName errCallback s :
  keeps s (callMethod methodName errCallback s).
Proof. keeps_fields. Qed.

Lemma keeps_modelListener e v s : keeps s (modelListener e v s).
Proof.
  unfold modelListener. destruct (Element.model e) as [m|]; [|apply keeps_refl].
  destruct (Model.isDefer m).
  - destruct (existsb _ _); keeps_fields.
  - eapply keeps_trans; [|apply keeps_sendMessage]. keeps_fields.
Qed.

Lemma keeps_dbListener e v s : keeps s (dbListener e v s).
Proof.
  unfold dbListener. destruct (_ || _); [apply keeps_refl|].
  destruct (field_isDefer e).
  - destruct (existsb _ _); keeps_fields.
  - eapply keeps_trans; [|apply keeps_sendMessage]. keeps_fields.
Qed.

Lemma keeps_actionListener eventType target key descendants getValue s :
  keeps s (actionListener eventType target key descendants getValue s).
Proof.
  destruct (Element.isUnicorn target) eqn:Hu;
    [|unfold actionListener; rewrite Hu; apply keeps_refl].
  destruct (0 <? length (Element.actions target))%nat eqn:Ha;
    [|unfold actionListener; rewrite Hu, Ha; apply keeps_refl].
  destruct (actionEvents s !! eventType) as [bindings|] eqn:Hb;
    [|unfold actionListener; rewrite Hu, Ha, Hb; apply keeps_refl].
  eapply keeps_appends.
  apply (actionListener_appends_bindings eventType target key descendants
           getValue bindings s Hu Ha Hb).
Qed.

Lemma only_trace_setDbModelValues dbKey triggeringElements dbUpdates s :
  only_trace s (setDbModelValues dbKey triggeringElements dbUpdates s).
Proof.
  unfold setDbModelValues. apply only_trace_foldl. intros s' element.
  match goal with |- only_trace _ (if ?c then _ else _) => destruct c end;
    [|apply only_trace_refl].
  revert s'. apply only_trace_foldl. intros s' [key updates].
  destruct (String.eqb _ _); [|apply only_trace_refl].
  revert s'. apply only_trace_foldl. intros s' [fieldName v].
  destruct (strict_eq _ _); [apply only_trace_emit|apply only_trace_refl].
Qed.

Lemma keeps_handleError h err s : keeps s (handleError h err s).
Proof.
  destruct h as [timer]. unfold handleError.
  destruct (truthy err), timer; keeps_fields.
Qed.

Lemma keeps_merge dbKey triggeringElements dbUpdates s :
  keeps s (setDbModelValues dbKey triggeringElements dbUpdates
             (setModelValues triggeringElements s)).
Proof.
  eapply keeps_trans; apply keeps_only_trace;
    [apply only_trace_setModelValues|apply only_trace_setDbModelValues].
Qed.

Lemma keeps_run_callback dbKey callback triggeringElements dbUpdates err s :
  keeps s (run_callback dbKey callback triggeringElements dbUpdates err s).
Proof.
  unfold run_callback.
  destruct callback as [el|el|[h|]]; destruct (truthy err);
    try apply keeps_merge; try apply keeps_handleError;
    try (apply keeps_only_trace; apply only_trace_setDbModelValues);
    keeps_fields.
Qed.

Lemma keeps_startPolling s : keeps s (startPolling s).
Proof. unfold startPolling. simpl. destruct (poll s); keeps_fields. Qed.

Lemma keeps_initPolling rootElement s : keeps s (initPolling rootElement s).
Proof.
  unfold initPolling. destruct (_ && _); [|apply keeps_refl].
  eapply keeps_trans; [|apply keeps_startPolling].
  unfold keeps, action_listener_types. simpl.
  rewrite omap_app. simpl. rewrite app_nil_r. auto.
Qed.

Lemma keeps_visibilityListener hidden s :
  keeps s (visibilityListener hidden s).
Proof.
  unfold visibilityListener. destruct hidden; [|apply keeps_startPolling].
  destruct (poll_timer s); keeps_fields.
Qed.

Lemma keeps_interval_fire id s : keeps s (interval_fire id s).
Proof.
  unfold interval_fire. destruct (List.find _ _);
    [apply keeps_callMethod|apply keeps_refl].
Qed.

Lemma keeps_timeout_fire site s : keeps s (timeout_fire site s).
Proof.
  unfold timeout_fire. destruct (List.find _ _) as [t|]; [|apply keeps_refl].
  destruct (due t <=? clock s); keeps_fields.
Qed.

(** ** Histories: the delegated listeners *)

Lemma filter_none_not_in eventType (types : list string) :
  (length (List.filter (fun et => String.eqb et eventType) types) =? 0)%nat
  = true ->
  eventType ∉ types.
Proof.
  induction types as [|t types IH]; simpl; intros Hnone Hin.
  - inversion Hin.
  - destruct (String.eqb_spec t eventType) as [->|Hne]; [discriminate|].
    apply elem_of_cons in Hin as [->|Hin]; [congruence|].
    exact (IH Hnone Hin).
Qed.

Lemma wired_register_action element s action :
  wired s -> wired (register_action element s action)
             /\ (length (actionQueue s)
                 <= length (actionQueue (register_action element s action)))%nat.
Proof.
  intros [Hl Hn]. unfold register_action.
  destruct (actionEvents s !! _); [split; [split; assumption|reflexivity]|].
  simpl.
  destruct (length _ =? 0)%nat eqn:Hnew; [|split; [split; assumption|reflexivity]].
  apply filter_none_not_in in Hnew.
  split; [|reflexivity]. split; simpl.
  - unfold action_listener_types in *. rewrite omap_app, Hl. reflexivity.
  - apply NoDup_app. split; [exact Hn|]. split; [|apply NoDup_singleton].
    intros x Hx Hx'. apply list_elem_of_singleton in Hx'. congruence.
Qed.

Lemma wired_register_actions element actions : forall s,
  wired s ->
  wired (foldl (register_action element) s actions)
  /\ (length (actionQueue s)
      <= length (actionQueue (foldl (register_action element) s actions)))%nat.
Proof.
  induction actions as [|a actions IH]; intros s Hw; [split; [exact Hw|reflexivity]|].
  simpl. destruct (wired_register_action element s a Hw) as [Hw' Hq'].
  destruct (IH _ Hw') as [Hw'' Hq'']. split; [exact Hw''|lia].
Qed.

Lemma wired_element_listener target eventType handler s :
  match handler with ActionListener _ => False | _ => True end ->
  wired s -> wired (addEventListener target eventType handler s).
Proof.
  intros Hh [Hl Hn]. split; [|exact Hn]. simpl.
  unfold action_listener_types in *. rewrite omap_app. simpl.
  destruct handler; try contradiction; rewrite app_nil_r; exact Hl.
Qed.

Lemma wired_register_element s element :
  wired s ->
  wired (register_element s element)
  /\ (length (actionQueue s)
      <= length (actionQueue (register_element s element)))%nat.
Proof.
  intros Hw. unfold register_element.
  destruct (isSameNode _ _); [split; [exact Hw|reflexivity]|].
  destruct (Element.isUnicorn element); [|split; [exact Hw|reflexivity]].
  match goal with
  | |- wired (foldl _ ?t _) /\ _ =>
      assert (Ht : wired t /\ actionQueue t = actionQueue s)
  end.
  { destruct (Element.model element) as [model|],
             (Element.field element) as [field|]; simpl;
      try destruct (db_isEmpty (Element.db element)); simpl;
      try destruct (not_bound element (modelEls s)); simpl;
      try destruct (not_bound element (dbEls s)); simpl;
      (split; [|reflexivity]);
      repeat (apply wired_element_listener; [exact I|]);
      destruct Hw; split; assumption. }
  destruct Ht as [Ht Hq].
  destruct (wired_register_actions element (Element.actions element) _ Ht)
    as [Hw' Hq'].
  split; [exact Hw'|]. rewrite <- Hq. exact Hq'.
Qed.

Lemma wired_rebuild walked s :
  wired s ->
  wired (refreshEventListeners walked s)
  /\ (length (actionQueue s)
      <= length (actionQueue (refreshEventListeners walked s)))%nat.
Proof.
  intros Hw. unfold refreshEventListeners.
  assert (Hfold : forall t, wired t ->
             wired (foldl register_element t walked)
             /\ (length (actionQueue t)
                 <= length (actionQueue (foldl register_element t walked)))%nat).
  { induction walked as [|e walked IH]; intros t Ht;
      [split; [exact Ht|reflexivity]|].
    simpl. destruct (wired_register_element t e Ht) as [Ht' Hq'].
    destruct (IH _ Ht') as [Ht'' Hq'']. split; [exact Ht''|lia]. }
  apply (Hfold (set_dbEls [] (set_modelEls [] (set_actionEvents ∅ s)))).
  destruct Hw. split; assumption.
Qed.

Lemma wired_keeps s s' : keeps s s' -> wired s -> wired s'.
Proof. intros (Hl & Ha & _) [Hw Hn]. split; congruence. Qed.

(** Every step keeps the delegated listeners in line with
    [attachedEventTypes], and does not shorten the queue. *)
Lemma step_invariant dbKey s ev :
  wired s ->
  wired (step dbKey s ev)
  /\ (length (actionQueue s) <= length (actionQueue (step dbKey s ev)))%nat.
Proof.
  intros Hw.
  assert (Hkeeps : forall s', keeps s s' ->
             wired s' /\ (length (actionQueue s) <= length (actionQueue s'))%nat).
  { intros s' Hk. split; [exact (wired_keeps s s' Hk Hw)|apply Hk]. }
  destruct ev; simpl.
  - apply wired_rebuild. exact Hw.
  - apply Hkeeps, keeps_modelListener.
  - apply Hkeeps, keeps_dbListener.
  - apply Hkeeps, keeps_actionListener.
  - apply Hkeeps, keeps_callMethod.
  - apply Hkeeps, keeps_initPolling.
  - apply Hkeeps, keeps_visibilityListener.
  - apply Hkeeps, keeps_interval_fire.
  - apply Hkeeps, keeps_timeout_fire.
  - apply (Hkeeps (advance ms s)). unfold advance. keeps_fields.
  - apply Hkeeps, keeps_run_callback.
Qed.

Lemma run_invariant dbKey history : forall s,
  wired s ->
  wired (run dbKey history s)
  /\ (length (actionQueue s) <= length (actionQueue (run dbKey history s)))%nat.
Proof.
  induction history as [|ev history IH]; intros s Hw;
    [split; [exact Hw|reflexivity]|].
  destruct (step_invariant dbKey s ev Hw) as [Hw' Hq'].
  destruct (IH _ Hw') as [Hw'' Hq''].
  change (run dbKey (ev :: history) s)
    with (run dbKey history (step dbKey s ev)).
  split; [exact Hw''|lia].
Qed.

Lemma NoDup_count_le_one eventType (types : list string) :
  NoDup types ->
  (length (List.filter (fun t => String.eqb t eventType) types) <= 1)%nat.
Proof.
  induction 1 as [|t types Hnotin Hnodup IH]; simpl; [lia|].
  destruct (String.eqb_spec t eventType) as [->|Hne]; [|exact IH].
  simpl.
  assert (Hnone : List.filter (fun t => String.eqb t eventType) types = []).
  { clear IH Hnodup. induction types as [|t' types IH]; [reflexivity|].
    simpl. apply not_elem_of_cons in Hnotin as [Hne Hnotin].
    destruct (String.eqb_spec t' eventType); [congruence|].
    apply IH. exact Hnotin. }
  rewrite Hnone. simpl. lia.
Qed.

(** X22.  Whatever happens to a component after its construction
    (rebuilds over any markup, inputs, actions, method calls, polling,
    timers, responses), at most one delegated action listener is ever
    attached to the document for an event type. *)
Theorem one_delegated_listener_per_event_type
    dbKey args_data rootNode history eventType :
  (count_action_listeners eventType
     (run dbKey history (new_component args_data rootNode)) <= 1)%nat.
Proof.
  assert (Hinit : wired (new_component args_data rootNode))
    by (split; [reflexivity|constructor]).
  destruct (run_invariant dbKey history _ Hinit) as [[Hl Hn] _].
  unfold count_action_listeners. rewrite Hl.
  apply NoDup_count_le_one. exact Hn.
Qed.


(** ** Polling and visibility *)

(** X24.  Losing and regaining visibility while one poll interval runs:
    hiding clears that interval, showing starts polling afresh with an
    immediate call of the poll method and one new interval, which
    becomes [poll.timer]. *)
Theorem hide_then_show_restarts_polling directive i s :
  poll s = Some directive ->
  intervals s = [i] ->
  poll_timer s = Some (i_id i) ->
  let hidden := visibilityListener true s in
  let shown := visibilityListener false hidden in
  intervals hidden = []
  /\ actionQueue hidden = actionQueue s
  /\ intervals shown
     = [mkInterval (next_timer s) (PollDirective.timing directive)
                   (PollDirective.method directive) (HandleError None)]
  /\ poll_timer shown = Some (next_timer s)
  /\ actionQueue shown
     = actionQueue s ++ [CallMethod (PollDirective.method directive) [] None].
Proof.
  intros Hpoll Hint Htimer hidden shown.
  assert (Hh : intervals hidden = [] /\ actionQueue hidden = actionQueue s
               /\ poll hidden = poll s /\ next_timer hidden = next_timer s).
  { subst hidden. unfold visibilityListener. rewrite Htimer.
    unfold clearInterval. simpl. rewrite Hint. simpl.
    rewrite Pos.eqb_refl. auto. }
  destruct Hh as (Hi & Hq & Hp & Hn).
  split; [exact Hi|]. split; [exact Hq|].
  subst shown.
  change (visibilityListener false hidden) with (startPolling hidden).
  destruct (startPolling_handler directive hidden) as (Hi' & Ht' & Hq');
    [congruence|].
  rewrite Hi', Ht', Hq', Hi, Hq, Hn. auto.
Qed.

Lemma hide_then_show_restarts_polling_witness :
  intervals
    (visibilityListener false
       (visibilityListener true
          (construct JNull (polling_root 0 "refresh" 5000) [])))
  = [mkInterval 2 5000 "refresh" (HandleError None)].
Proof.
  exact (proj1 (proj2 (proj2
           (hide_then_show_restarts_polling
              (PollDirective.mk "refresh" 5000 false)
              (mkInterval 1 5000 "refresh" (HandleError None))
              (construct JNull (polling_root 0 "refresh" 5000) [])
              eq_refl eq_refl eq_refl)))).
Defined.

(** X25.  [startPolling] never clears a running interval.  So a
    visibility gain that no loss preceded (the component was built in a
    hidden document) starts a second interval beside the first, and the
    first is out of reach: [poll.timer] now names the second, and a later
    loss of visibility clears only that one. *)
Theorem show_without_hide_keeps_old_interval directive i s :
  poll s = Some directive ->
  intervals s = [i] ->
  Pos.eqb (i_id i) (next_timer s) = false ->
  let shown := visibilityListener false s in
  let hidden := visibilityListener true shown in
  intervals shown
  = [i; mkInterval (next_timer s) (PollDirective.timing directive)
                   (PollDirective.method directive) (HandleError None)]
  /\ poll_timer shown = Some (next_timer s)
  /\ intervals hidden = [i].
Proof.
  intros Hpoll Hint Hfresh shown hidden.
  destruct (startPolling_handler directive s Hpoll) as (Hi & Ht & _).
  rewrite Hint in Hi. simpl in Hi.
  assert (Hs : intervals shown
               = [i; mkInterval (next_timer s) (PollDirective.timing directive)
                                (PollDirective.method directive)
                                (HandleError None)]
               /\ poll_timer shown = Some (next_timer s))
    by (subst shown; unfold visibilityListener; auto).
  destruct Hs as [Hs Hts]. split; [exact Hs|]. split; [exact Hts|].
  subst hidden. unfold visibilityListener. rewrite Hts.
  unfold clearInterval. simpl. rewrite Hs. simpl.
  rewrite Hfresh, Pos.eqb_refl. reflexivity.
Qed.

Lemma show_without_hide_keeps_old_interval_witness :
  intervals
    (visibilityListener true
       (visibilityListener false
          (construct JNull (polling_root 0 "refresh" 5000) [])))
  = [mkInterval 1 5000 "refresh" (HandleError None)].
Proof.
  exact (proj2 (proj2
           (show_without_hide_keeps_old_interval
              (PollDirective.mk "refresh" 5000 false)
              (mkInterval 1 5000 "refresh" (HandleError None))
              (construct JNull (polling_root 0 "refresh" 5000) [])
              eq_refl eq_refl eq_refl))).
Defined.

(** ** Event listener registry: frame *)

Lemma only_registry_refl s : only_registry s s.
Proof. destruct s; reflexivity. Qed.

Lemma only_registry_trans s1 s2 s3 :
  only_registry s1 s2 -> only_registry s2 s3 -> only_registry s1 s3.
Proof.
  unfold only_registry. intros H12 H23. rewrite H23, H12. reflexivity.
Qed.

Lemma only_registry_foldl {A} (f : State -> A -> State) (l : list A) :
  (forall s x, only_registry s (f s x)) ->
  forall s, only_registry s (foldl f s l).
Proof.
  intros Hf. induction l as [|x l IH]; intros s; simpl.
  - apply only_registry_refl.
  - eapply only_registry_trans; [apply Hf|apply IH].
Qed.

Lemma only_registry_fields s ms ds ev at_ ls :
  only_registry s
    (set_listeners ls
       (set_attachedEventTypes at_
          (set_actionEvents ev (set_dbEls ds (set_modelEls ms s))))).
Proof. reflexivity. Qed.

Lemma only_registry_register_action element s action :
  only_registry s (register_action element s action).
Proof.
  unfold register_action, only_registry.
  destruct (actionEvents s !! _); simpl;
    [destruct s; reflexivity|].
  destruct (_ =? _)%nat; destruct s; reflexivity.
Qed.

Lemma only_registry_register_element s element :
  only_registry s (register_element s element).
Proof.
  unfold register_element.
  destruct (isSameNode _ _); [apply only_registry_refl|].
  destruct (Element.isUnicorn element); [|apply only_registry_refl].
  eapply only_registry_trans;
    [|apply only_registry_foldl; intros; apply only_registry_register_action].
  destruct (Element.model element) as [model|],
           (Element.field element) as [field|]; simpl;
    try destruct (db_isEmpty (Element.db element)); simpl;
    try destruct (not_bound element (modelEls s)); simpl;
    try destruct (not_bound element (dbEls s)); simpl;
    destruct s; reflexivity.
Qed.

(** X26.  A rebuild touches the registry and the listeners only: the
    queue, the triggering elements, the data, the polling state, the
    timers and the requests are as they were. *)
Theorem rebuild_only_registry walked s :
  let s' := refreshEventListeners walked s in
  only_registry s s'
  /\ actionQueue s' = actionQueue s
  /\ lastTriggeringElements s' = lastTriggeringElements s
  /\ data s' = data s
  /\ timeouts s' = timeouts s
  /\ intervals s' = intervals s
  /\ network s' = network s.
Proof.
  intros s'. subst s'.
  assert (H : only_registry s (refreshEventListeners walked s)).
  { unfold refreshEventListeners.
    eapply only_registry_trans;
      [|apply only_registry_foldl; intros; apply only_registry_register_element].
    destruct s; reflexivity. }
  split; [exact H|]. unfold only_registry in H. rewrite H. repeat split.
Qed.

(** ** Dispatch of model inputs *)

(** X27.  A model input that is not deferred arms the debounce timer of
    its element with the window of its binding: [debounceTime], or 250 ms
    when [debounceTime] is [-1]; whatever timer that element had pending
    is replaced. *)
Theorem plain_input_debounce_window e model v s :
  Element.model e = Some model ->
  Model.isDefer model = false ->
  pending (SiteModel (Element.el e)) (modelListener e v s)
  = [mkTimeout (SiteModel (Element.el e)) (clock s)
               (Some (if Model.debounceTime model =? -1 then 250
                      else Model.debounceTime model))
               (ModelCallback (Element.el e))].
Proof.
  intros Hm Hd. unfold modelListener, model_debounceTime. rewrite Hm, Hd.
  simpl. unfold sendMessage. simpl.
  destruct (Model.debounceTime model =? -1);
    exact (pending_debounce_send _ (ModelCallback (Element.el e))
             (push_triggering e
                (push_action (SyncInput (Model.name model) v) s))).
Qed.

Lemma plain_input_debounce_window_witness :
  pending (SiteModel 1)
    (modelListener
       (Element.mk 1 true (Some (Model.mk "bio" "input" 500 false false))
                   (Db.mk None None) None [] None None None)
       (JStr "a") (new_component JNull 0))
  = [mkTimeout (SiteModel 1) 0 (Some 500) (ModelCallback 1)].
Proof.
  exact (plain_input_debounce_window
           (Element.mk 1 true (Some (Model.mk "bio" "input" 500 false false))
                       (Db.mk None None) None [] None None None)
           (Model.mk "bio" "input" 500 false false)
           (JStr "a") (new_component JNull 0) eq_refl eq_refl).
Defined.
